(* Shallow embedding of encoding/fasta/fasta_indexed.go: index parsing
   (parseIndex, NewIndexed, newLazyIndexed), the read-through cache (read,
   resizeBuf) and the sequence extractor (Len, Get). *)

From Stdlib Require Import ZArith Lia String Ascii.
From stdpp Require Import base list gmap strings sorting.

Local Open Scope Z_scope.

(* ------------------------------------------------------------------ *)
(** * Go integers *)

(** uint64 arithmetic wraps modulo 2^64. *)
Definition u64 (x : Z) : Z := x mod 2 ^ 64.

(** Conversion of a uint64 value to int64 / int (64-bit platform). *)
Definition s64 (x : Z) : Z :=
  let y := x mod 2 ^ 64 in if y <? 2 ^ 63 then y else y - 2 ^ 64.

(* ------------------------------------------------------------------ *)
(** * Outcomes: a result, a returned Go error, or a runtime panic *)

Inductive error :=
  | EFormat (line : list ascii)      (* "Invalid index line: %s" *)
  | ERange                           (* "start must be less than end" *)
  | ENotFound (seqName : string)     (* "sequence not found in index: %s" *)
  | EPastEnd (seqName : string)      (* "end is past end of sequence %s" *)
  | ESeek (off : Z)                  (* "failed to seek to offset %d" *)
  | EUnexpectedEOF.                  (* "encountered unexpected end of file" *)

Inductive res (A : Type) :=
  | Ok (a : A)
  | Err (e : error)
  | Panic.
Arguments Ok {A} a.
Arguments Err {A} e.
Arguments Panic {A}.

(* ------------------------------------------------------------------ *)
(** * Index entries and the index regular expression *)

(** [indexEntry]; the fields are prefixed to keep [length] free. *)
Record indexEntry := mkEntry {
  ie_name : string;
  ie_length : Z;
  ie_offset : Z;
  ie_lineBase : Z;
  ie_lineWidth : Z;
}.

Definition tab : ascii := "009"%char.
Definition newline : ascii := "010"%char.
Definition cr : ascii := "013"%char.

(** RE2's [\s] is [[\t\n\f\r ]]. *)
Definition is_space (c : ascii) : bool :=
  let n := nat_of_ascii c in
  (n =? 9)%nat || (n =? 10)%nat || (n =? 12)%nat || (n =? 13)%nat || (n =? 32)%nat.

Definition is_digit (c : ascii) : bool :=
  let n := nat_of_ascii c in (48 <=? n)%nat && (n <=? 57)%nat.

(** Longest prefix whose characters satisfy [p], and the rest. *)
Fixpoint span_while (p : ascii -> bool) (s : list ascii) : list ascii * list ascii :=
  match s with
  | [] => ([], [])
  | c :: t => if p c then let (a, b) := span_while p t in (c :: a, b) else ([], s)
  end.

(** A greedy [X+\t] at the head of [s], for a class [X] not containing tab:
    the run must be the maximal one, since a shorter run is followed by a
    character of [X], not a tab. *)
Definition run_tab (p : ascii -> bool) (s : list ascii) : option (list ascii * list ascii) :=
  match span_while p s with
  | ([], _) => None
  | (g, c :: r) => if Ascii.eqb c tab then Some (g, r) else None
  | (_, []) => None
  end.

(** Match of [(\S+)\t(\d+)\t(\d+)\t(\d+)\t(\d+)] anchored at the head of [s]
    (the last [\d+] is greedy and need not end the string). *)
Definition match_at (s : list ascii) : option (list (list ascii)) :=
  match run_tab (fun c => negb (is_space c)) s with
  | None => None
  | Some (g1, r1) =>
    match run_tab is_digit r1 with
    | None => None
    | Some (g2, r2) =>
      match run_tab is_digit r2 with
      | None => None
      | Some (g3, r3) =>
        match run_tab is_digit r3 with
        | None => None
        | Some (g4, r4) =>
          match span_while is_digit r4 with
          | ([], _) => None
          | (g5, _) => Some [g1; g2; g3; g4; g5]
          end
        end
      end
    end
  end.

(** [indexRegExp.FindStringSubmatch]: the leftmost match (the regexp is not
    anchored); the whole match is dropped, the five groups are kept. *)
Fixpoint find_submatch (s : list ascii) : option (list (list ascii)) :=
  match match_at s with
  | Some g => Some g
  | None => match s with [] => None | _ :: t => find_submatch t end
  end.

(* ------------------------------------------------------------------ *)
(** * Line scanning and number parsing *)

Definition dropCR (l : list ascii) : list ascii :=
  match rev l with
  | c :: r => if Ascii.eqb c cr then rev r else l
  | [] => l
  end.

(** [bufio.MaxScanTokenSize]: the largest buffer the scanner grows to. *)
Definition maxTokenSize : Z := 65536.

(** The tokens of a [bufio.Scanner] with [bufio.ScanLines]: lines split at
    '\n', a trailing '\r' dropped, a last non-empty line without newline
    kept.  The line being scanned sits in the scanner's buffer from its first
    byte; once [maxTokenSize] bytes of it are there with no newline among
    them, [Scan] fails with [ErrTooLong] and no further token comes.  (This
    is for a reader that reports [io.EOF] on a read of its own, as
    [bytes.Reader], [strings.Reader] and [os.File] do.) *)
Fixpoint scan_lines_aux (cur : list ascii) (s : list ascii) : list (list ascii) :=
  match s with
  | [] => match cur with [] => [] | _ => [dropCR (rev cur)] end
  | c :: t =>
    if Ascii.eqb c newline then dropCR (rev cur) :: scan_lines_aux [] t
    else if maxTokenSize <=? Z.of_nat (length (c :: cur)) then []
    else scan_lines_aux (c :: cur) t
  end.

Definition scan_lines (s : list ascii) : list (list ascii) := scan_lines_aux [] s.

Definition digit_val (c : ascii) : Z := Z.of_nat (nat_of_ascii c) - 48.

(** [strconv.ParseUint(s, 10, 64)] on a string of decimal digits: [None] is
    the range error. *)
Definition parseUint (s : list ascii) : option Z :=
  let v := fold_left (fun acc c => acc * 10 + digit_val c) s 0 in
  if v <? 2 ^ 64 then Some v else None.

(** One iteration of the loop of [parseIndex]; [must.Nil(err)] panics. *)
Definition parse_line (line : list ascii) : res indexEntry :=
  match find_submatch line with
  | Some [g1; g2; g3; g4; g5] =>
    match parseUint g2 with
    | None => Panic
    | Some len =>
      match parseUint g3 with
      | None => Panic
      | Some off =>
        match parseUint g4 with
        | None => Panic
        | Some lb =>
          match parseUint g5 with
          | None => Panic
          | Some lw => Ok (mkEntry (string_of_list_ascii g1) len off lb lw)
          end
        end
      end
    end
  | _ => Err (EFormat line)
  end.

(** [parseIndex] over the scanned lines: on an invalid line it returns
    [nil, err]; when [Scan] stops (end of input or [ErrTooLong], which
    [parseIndex] does not check) it returns the entries so far. *)
Fixpoint parse_lines (lines : list (list ascii)) (acc : list indexEntry) : res (list indexEntry) :=
  match lines with
  | [] => Ok acc
  | l :: ls =>
    match parse_line l with
    | Ok ent => parse_lines ls (acc ++ [ent])
    | Err e => Err e
    | Panic => Panic
    end
  end.

Definition parseIndex (index : list ascii) : res (list indexEntry) :=
  parse_lines (scan_lines index) [].

(* ------------------------------------------------------------------ *)
(** * The engine *)

(** Modelled from the spec: the encoding post-processing of Get
    ([biosimd.CleanASCIISeqInplace], [biosimd.ASCIIToSeq8Inplace], not under
    src/) is a pluggable in-place transform of the result buffer; here it is
    a byte-wise map, the identity for the raw encoding. *)
Definition apply_enc (enc : ascii -> ascii) (buf : list ascii) : list ascii :=
  map enc buf.

(** The immutable part of [indexedFasta]: the catalog [seqs], the data
    behind [reader] (a [bytes.Reader]-like in-memory source) and the
    encoding. *)
Record indexedFasta := mkFasta {
  seqs : gmap string indexEntry;
  reader : list ascii;
  enc : ascii -> ascii;
}.

(** The mutable part: [bufOff], [buf] as its backing array [bufArr] (whose
    length is [cap(buf)]) and [len(buf)], and the backing array of
    [resultBuf]. *)
Record state := mkState {
  bufOff : Z;
  bufArr : list ascii;
  bufLen : nat;
  resArr : list ascii;
}.

Definition init_state : state := mkState 0 [] 0 [].

(** [newLazyIndexed]: the catalog (its [seqNames] are [is_seqNames] below). *)
Definition build_seqs (index : list indexEntry) : gmap string indexEntry :=
  foldl (fun m e => <[ie_name e := e]> m) ∅ index.

Definition newLazyIndexed (data : list ascii) (index : list indexEntry)
    (encf : ascii -> ascii) : indexedFasta :=
  mkFasta (build_seqs index) data encf.

Definition NewIndexed (data : list ascii) (index : list ascii)
    (encf : ascii -> ascii) : res indexedFasta :=
  match parseIndex index with
  | Ok entries => Ok (newLazyIndexed data entries encf)
  | Err e => Err e
  | Panic => Panic
  end.

Definition Len (f : indexedFasta) (seqName : string) : res Z :=
  match seqs f !! seqName with
  | None => Err (ENotFound seqName)
  | Some ent => Ok (ie_length ent)
  end.

(* ------------------------------------------------------------------ *)
(** * A state monad with errors and panics *)

Definition M (A : Type) := state -> res A * state.

Definition ret {A} (a : A) : M A := fun st => (Ok a, st).
Definition throw {A} (e : error) : M A := fun st => (Err e, st).
Definition panic {A} : M A := fun st => (Panic, st).
Definition bind {A B} (m : M A) (k : A -> M B) : M B :=
  fun st => match m st with
            | (Ok a, st') => k a st'
            | (Err e, st') => (Err e, st')
            | (Panic, st') => (Panic, st')
            end.
Definition get_st : M state := fun st => (Ok st, st).
Definition put_st (st : state) : M unit := fun _ => (Ok tt, st).

Notation "'let*' x := m 'in' k" := (bind m (fun x => k))
  (at level 200, x name, m at level 100, k at level 200).

(** Go's uint64 [/] and [%]: a zero divisor panics. *)
Definition div64 (a b : Z) : M Z := if b =? 0 then panic else ret (a / b).
Definition mod64 (a b : Z) : M Z := if b =? 0 then panic else ret (a mod b).

(* ------------------------------------------------------------------ *)
(** * The read-through cache *)

(** [resizeBuf] on a backing array and the requested length. *)
Definition resize (arr : list ascii) (n : nat) : list ascii :=
  if (length arr <? n)%nat then repeat Ascii.zero n else arr.

(** [s[lo:hi]] on a slice with backing array [arr]: bounds up to [cap]. *)
Definition slice (arr : list ascii) (lo hi : Z) : M (list ascii) :=
  if (0 <=? lo) && (lo <=? hi) && (hi <=? Z.of_nat (length arr))
  then ret (take (Z.to_nat (hi - lo)) (drop (Z.to_nat lo) arr))
  else panic.

(** [Seek(off, io.SeekStart)] then [Read] into a buffer of [k] bytes on a
    [bytes.Reader] over [data]: a negative offset is refused, otherwise up
    to [k] bytes from [off] are copied (none past the end). *)
Definition source_read (data : list ascii) (off : Z) (k : nat) : list ascii :=
  take k (drop (Z.to_nat off) data).

(** [indexedFasta.read(off, n)]. *)
Definition read (data : list ascii) (off n : Z) : M (list ascii) :=
  let* st := get_st in
  let limit := s64 (off + n) in
  if (off <? bufOff st) || (s64 (bufOff st + Z.of_nat (bufLen st)) <? limit) then
    if off <? 0 then throw (ESeek off) else
    let bufSize := if 8192 <? n then n else 8192 in
    let arr1 := resize (bufArr st) (Z.to_nat bufSize) in
    let r := source_read data off (Z.to_nat bufSize) in
    let bytesRead := Z.of_nat (length r) in
    let arr2 := r ++ drop (length r) arr1 in
    if bytesRead <? n then
      let* _ := put_st (mkState (bufOff st) arr2 (Z.to_nat bufSize) (resArr st)) in
      throw EUnexpectedEOF
    else
      let* _ := put_st (mkState off arr2 (length r) (resArr st)) in
      if (off <? off) || (s64 (off + bytesRead) <? limit) then panic
      else slice arr2 (off - off) (limit - off)
  else slice (bufArr st) (off - bufOff st) (limit - bufOff st).

(* ------------------------------------------------------------------ *)
(** * Get *)

(** The de-interleaving loop of [Get]: [None] is the index-out-of-range
    panic on [resultBuf] (of length [n]). *)
Fixpoint copy_loop (lineBase lineWidth : Z) (n : nat) (buffer : list ascii)
    (linePos : Z) (resultPos : nat) (rb : list ascii) : option (list ascii) :=
  match buffer with
  | [] => Some rb
  | c :: rest =>
    let step :=
      if linePos <? lineBase then
        if (resultPos <? n)%nat then Some (<[resultPos := c]> rb, S resultPos) else None
      else Some (rb, resultPos) in
    match step with
    | None => None
    | Some (rb', rp') =>
      let lp := u64 (linePos + 1) in
      let lp' := if lp =? lineWidth then 0 else lp in
      copy_loop lineBase lineWidth n rest lp' rp' rb'
    end
  end.

(** The coordinate arithmetic of [Get] (lines 180-190): [charsPerNewline],
    [offset] and [capacity]. *)
Definition translate (ent : indexEntry) (start end_ : Z) : M (Z * Z * Z) :=
  let charsPerNewline := u64 (ie_lineWidth ent - ie_lineBase ent) in
  let* q := div64 start (ie_lineBase ent) in
  let offset := u64 (ie_offset ent + start + u64 (charsPerNewline * q)) in
  let* m := mod64 start (ie_lineBase ent) in
  let firstLineBases := u64 (ie_lineBase ent - m) in
  let n := u64 (end_ - start) in
  let* nl := (if firstLineBases <? n then
           let* d := div64 (u64 (n - firstLineBases)) (ie_lineBase ent) in
           ret (u64 (1 + d))
         else ret 0) in
  let capacity := u64 (n + u64 (nl * charsPerNewline)) in
  ret (charsPerNewline, offset, capacity).

Definition get_entry (f : indexedFasta) (ent : indexEntry) (start end_ : Z) : M (list ascii) :=
  let* t := translate ent start end_ in
  let '(charsPerNewline, offset, capacity) := t in
  let* buffer := read (reader f) (s64 offset) (s64 capacity) in
  let n := s64 (u64 (end_ - start)) in
  if n <? 0 then panic else
  let* st := get_st in
  let rb := resize (resArr st) (Z.to_nat n) in
  let* linePos := mod64 (u64 (offset - ie_offset ent)) (ie_lineWidth ent) in
  match copy_loop (ie_lineBase ent) (ie_lineWidth ent) (Z.to_nat n) buffer linePos 0 rb with
  | None => panic
  | Some rb' =>
    let out := apply_enc (enc f) (take (Z.to_nat n) rb') in
    let* _ := put_st (mkState (bufOff st) (bufArr st) (bufLen st) (out ++ drop (Z.to_nat n) rb')) in
    ret out
  end.

(** [indexedFasta.Get] (the mutex only serialises calls). *)
Definition Get (f : indexedFasta) (seqName : string) (start end_ : Z) : M (list ascii) :=
  if end_ <=? start then throw ERange else
  match seqs f !! seqName with
  | None => throw (ENotFound seqName)
  | Some ent =>
    if ie_length ent <? end_ then throw (EPastEnd seqName)
    else get_entry f ent start end_
  end.

Definition ex_index : list ascii := list_ascii_of_string "seq1	10	0	4	5".
Definition ex_data : list ascii :=
  list_ascii_of_string ("ACGT" ++ String newline ("ACGT" ++ String newline ("AC" ++ String newline EmptyString)))%string.

(* ------------------------------------------------------------------ *)
(** * The layout an index entry describes *)

Definition is_linebreak (c : ascii) : Prop := c = newline \/ c = cr.

Definition nth_byte (data : list ascii) (p : Z) : ascii :=
  nth (Z.to_nat p) data Ascii.zero.

(** Physical position of base [i] of a sequence. *)
Definition phys (ent : indexEntry) (i : Z) : Z :=
  ie_offset ent + (i / ie_lineBase ent) * ie_lineWidth ent + i mod ie_lineBase ent.

(** The integers [a, a+1, ..., b-1]. *)
Definition zseq (a b : Z) : list Z := map (fun k => a + Z.of_nat k) (seq 0 (Z.to_nat (b - a))).

(** Bases [start, end) of a sequence as the data file holds them. *)
Definition bases (ent : indexEntry) (data : list ascii) (start end_ : Z) : list ascii :=
  map (fun i => nth_byte data (phys ent i)) (zseq start end_).

(** Number of base positions among the first [x] bytes of a sequence's
    layout. *)
Definition data_count (lineBase lineWidth x : Z) : Z :=
  x / lineWidth * lineBase + Z.min (x mod lineWidth) lineBase.

(** Writes of [l] at [rb[rp]], [rb[rp+1]], ... *)
Fixpoint list_write (rb : list ascii) (rp : nat) (l : list ascii) : list ascii :=
  match l with
  | [] => rb
  | c :: l' => list_write (<[rp := c]> rb) (S rp) l'
  end.

(** The fields of an entry are uint64 values. *)
Definition entry_u64 (ent : indexEntry) : Prop :=
  0 <= ie_length ent < 2 ^ 64 /\ 0 <= ie_offset ent < 2 ^ 64 /\
  0 <= ie_lineBase ent < 2 ^ 64 /\ 0 <= ie_lineWidth ent < 2 ^ 64.

(** The data file holds the bytes the entry describes: lines of [lineBase]
    bases and [lineWidth] bytes, the last line with its line-break bytes,
    in a file shorter than 2^63 bytes; no base is a line-break byte. *)
Definition holds_index_bytes (ent : indexEntry) (data : list ascii) : Prop :=
  entry_u64 ent /\
  1 <= ie_lineBase ent <= ie_lineWidth ent /\
  ie_offset ent + ie_length ent
    + (ie_length ent + ie_lineBase ent - 1) / ie_lineBase ent * (ie_lineWidth ent - ie_lineBase ent)
    <= Z.of_nat (length data) /\
  Z.of_nat (length data) < 2 ^ 63 /\
  (forall i, 0 <= i < ie_length ent -> ~ is_linebreak (nth_byte data (phys ent i))).

(** The cache window holds the bytes of the source it claims. *)
Definition cache_ok (data : list ascii) (st : state) : Prop :=
  0 <= bufOff st /\ (bufLen st <= length (bufArr st))%nat /\
  bufOff st + Z.of_nat (bufLen st) <= Z.of_nat (length data) /\
  take (bufLen st) (bufArr st) = take (bufLen st) (drop (Z.to_nat (bufOff st)) data).

(** The physical span [Get] reads: its start and length. *)
Definition span_of (ent : indexEntry) (start end_ : Z) : option (Z * Z) :=
  match fst (translate ent start end_ init_state) with
  | Ok (_, offset, capacity) => Some (offset, capacity)
  | _ => None
  end.

(** Number of positions of [[p, p + k)] whose cycle position is a base. *)
Definition data_positions (ent : indexEntry) (p k : Z) : nat :=
  length (List.filter (fun j => bool_decide ((p + Z.of_nat j - ie_offset ent) mod ie_lineWidth ent < ie_lineBase ent))
                 (seq 0 (Z.to_nat k))).

(* ================================================================== *)
(** * Index parsing *)

Lemma parse_line_nomatch (l : list ascii) :
  find_submatch l = None -> parse_line l = Err (EFormat l).
Proof. intros H. unfold parse_line. now rewrite H. Qed.

Lemma parse_lines_stop (pre : list (list ascii)) (l : list ascii) (post : list (list ascii))
    (acc : list indexEntry) (e : error) :
  Forall (fun l' => exists ent, parse_line l' = Ok ent) pre ->
  parse_line l = Err e ->
  parse_lines (pre ++ l :: post) acc = Err e.
Proof.
  intros Hpre Hl. revert acc. induction Hpre as [|l' pre' [ent Hent] _ IH]; intros acc.
  - simpl. now rewrite Hl.
  - simpl. rewrite Hent. apply IH.
Qed.

Lemma parse_line_overflow (l g1 g2 g3 g4 g5 : list ascii) :
  find_submatch l = Some [g1; g2; g3; g4; g5] ->
  (parseUint g2 = None \/ parseUint g3 = None \/ parseUint g4 = None \/ parseUint g5 = None) ->
  parse_line l = Panic.
Proof.
  intros Hm Hov. unfold parse_line. rewrite Hm.
  destruct (parseUint g2), (parseUint g3), (parseUint g4), (parseUint g5);
    try reflexivity; intuition discriminate.
Qed.

Lemma parse_lines_panic (pre : list (list ascii)) (l : list ascii) (post : list (list ascii))
    (acc : list indexEntry) :
  Forall (fun l' => exists ent, parse_line l' = Ok ent) pre ->
  parse_line l = Panic ->
  parse_lines (pre ++ l :: post) acc = Panic.
Proof.
  intros Hpre Hl. revert acc. induction Hpre as [|l' pre' [ent Hent] _ IH]; intros acc.
  - simpl. now rewrite Hl.
  - simpl. rewrite Hent. apply IH.
Qed.

Definition line_extra : list ascii := list_ascii_of_string "a	1	2	3	4	5".
Definition line_short : list ascii := list_ascii_of_string "a	1	2	3".
Definition line_overflow : list ascii := list_ascii_of_string "a	18446744073709551616	0	1	2".

(** C4 (as stated, fails): a line with too many fields is accepted, and a
    numeric field that overflows uint64 panics instead of a FormatError. *)
Lemma C4_counterexample :
  parseIndex line_extra = Ok [mkEntry "a" 1 2 3 4] /\ parseIndex line_overflow = Panic.
Proof. split; vm_compute; reflexivity. Qed.

(** C4 (code bug): a matched numeric field that overflows uint64 makes
    [strconv.ParseUint] fail, and [must.Nil] turns that into a panic: once
    the scanner delivers such a line after valid ones, NewIndexed panics
    instead of returning a FormatError. *)
Theorem C4_overflow_panics (data index : list ascii) (encf : ascii -> ascii)
    (pre : list (list ascii)) (l : list ascii) (post : list (list ascii))
    (g1 g2 g3 g4 g5 : list ascii) :
  scan_lines index = pre ++ l :: post ->
  Forall (fun l' => exists ent, parse_line l' = Ok ent) pre ->
  find_submatch l = Some [g1; g2; g3; g4; g5] ->
  (parseUint g2 = None \/ parseUint g3 = None \/ parseUint g4 = None \/ parseUint g5 = None) ->
  NewIndexed data index encf = Panic.
Proof.
  intros Hs Hpre Hm Hov. unfold NewIndexed, parseIndex. rewrite Hs.
  now rewrite (parse_lines_panic pre l post [] Hpre (parse_line_overflow l g1 g2 g3 g4 g5 Hm Hov)).
Qed.

Lemma C4_overflow_panics_witness :
  scan_lines line_overflow = [] ++ line_overflow :: [] /\
  NewIndexed [] line_overflow (fun c => c) = Panic.
Proof.
  split; [vm_compute; reflexivity|].
  apply (C4_overflow_panics [] line_overflow (fun c => c) [] line_overflow []
           (list_ascii_of_string "a") (list_ascii_of_string "18446744073709551616")
           (list_ascii_of_string "0") (list_ascii_of_string "1") (list_ascii_of_string "2")).
  - vm_compute. reflexivity.
  - apply List.Forall_nil.
  - vm_compute. reflexivity.
  - left. vm_compute. reflexivity.
Defined.

Definition index_two_lines : list ascii :=
  list_ascii_of_string ("a	1	0	1	2" ++ String newline "bad")%string.

(** C5 (as stated, refuted): with a valid first line and a malformed second
    one, parsing returns the error alone, without the entry of line one. *)
Lemma C5_counterexample :
  parseIndex index_two_lines = Err (EFormat (list_ascii_of_string "bad")).
Proof. vm_compute. reflexivity. Qed.

(** C5 (amended): when the scanner delivers a line that fails to match,
    whatever the lines before it parsed to, the result is the error and no
    entries (Go's [nil, err]), and NewIndexed builds no engine. *)
Theorem C5_no_partial_entries (index : list ascii) (pre : list (list ascii))
    (l : list ascii) (post : list (list ascii)) :
  scan_lines index = pre ++ l :: post ->
  Forall (fun l' => exists ent, parse_line l' = Ok ent) pre ->
  find_submatch l = None ->
  (forall acc, parse_lines (scan_lines index) acc = Err (EFormat l)) /\
  parseIndex index = Err (EFormat l) /\
  (forall data encf, NewIndexed data index encf = Err (EFormat l)).
Proof.
  intros Hs Hpre Hn.
  assert (H : forall acc, parse_lines (scan_lines index) acc = Err (EFormat l)).
  { intros acc. rewrite Hs. apply parse_lines_stop; auto using parse_line_nomatch. }
  split; [exact H|]. split; [exact (H [])|].
  intros data encf. unfold NewIndexed. unfold parseIndex. rewrite (H []). reflexivity.
Qed.

Lemma C5_no_partial_entries_witness :
  parseIndex index_two_lines = Err (EFormat (list_ascii_of_string "bad")).
Proof.
  refine (proj1 (proj2 (C5_no_partial_entries index_two_lines [list_ascii_of_string "a	1	0	1	2"]
           (list_ascii_of_string "bad") [] _ _ _))).
  - vm_compute. reflexivity.
  - constructor; [eexists; vm_compute; reflexivity | constructor].
  - vm_compute. reflexivity.
Defined.

(* ================================================================== *)
(** * The catalog *)

Lemma foldl_insert_other (m : gmap string indexEntry) (post : list indexEntry) (k : string) :
  Forall (fun e' => ie_name e' <> k) post ->
  foldl (fun m e => <[ie_name e := e]> m) m post !! k = m !! k.
Proof.
  revert m. induction post as [|e' post IH]; intros m Hp; simpl; [reflexivity|].
  inversion Hp as [|? ? Hne Hrest]; subst.
  rewrite IH by exact Hrest. apply lookup_insert_ne. congruence.
Qed.

Lemma build_seqs_last (pre post : list indexEntry) (e : indexEntry) :
  Forall (fun e' => ie_name e' <> ie_name e) post ->
  build_seqs (pre ++ e :: post) !! ie_name e = Some e.
Proof.
  intros Hp. unfold build_seqs. rewrite foldl_app. simpl.
  rewrite foldl_insert_other by exact Hp. apply lookup_insert_eq.
Qed.

(** C7: of several index lines naming the same sequence, the last one is
    the catalog's entry: Len and Get use its length, offset and layout. *)
Theorem C7_last_entry_wins (data : list ascii) (encf : ascii -> ascii)
    (pre post : list indexEntry) (e : indexEntry) :
  Forall (fun e' => ie_name e' <> ie_name e) post ->
  let f := newLazyIndexed data (pre ++ e :: post) encf in
  seqs f !! ie_name e = Some e /\
  Len f (ie_name e) = Ok (ie_length e) /\
  (forall start end_ st,
     Get f (ie_name e) start end_ st =
     (if end_ <=? start then throw ERange
      else if ie_length e <? end_ then throw (EPastEnd (ie_name e))
      else get_entry f e start end_) st).
Proof.
  intros Hp f. assert (Hl : seqs f !! ie_name e = Some e) by apply (build_seqs_last pre post e Hp).
  split; [exact Hl|]. split.
  - unfold Len. now rewrite Hl.
  - intros start end_ st. unfold Get. rewrite Hl. reflexivity.
Qed.

Definition dup_first : indexEntry := mkEntry "s" 4 0 4 5.
Definition dup_last : indexEntry := mkEntry "s" 8 100 8 9.

Lemma C7_last_entry_wins_witness :
  Len (newLazyIndexed [] ([dup_first] ++ dup_last :: []) (fun c => c)) "s" = Ok 8.
Proof.
  exact (proj1 (proj2 (C7_last_entry_wins [] (fun c => c) [dup_first] [] dup_last (List.Forall_nil _)))).
Defined.

(* ================================================================== *)
(** * Order of the checks in Get *)

Definition engine_empty : indexedFasta := mkFasta ∅ [] (fun c => c).

(** C6 (as stated, refuted): for an absent name and start >= end, Get
    reports the range error, not NotFound. *)
Lemma C6_counterexample :
  fst (Get engine_empty "absent" 5 3 init_state) = Err ERange.
Proof. reflexivity. Qed.

(** C6 (amended): Get validates start < end first; for an absent name it
    returns the range error when start >= end and NotFound otherwise. *)
Theorem C6_range_then_lookup (f : indexedFasta) (seqName : string) (start end_ : Z) (st : state) :
  seqs f !! seqName = None ->
  Get f seqName start end_ st =
  (if end_ <=? start then (Err ERange, st) else (Err (ENotFound seqName), st)).
Proof.
  intros H. unfold Get. destruct (end_ <=? start); [reflexivity|]. now rewrite H.
Qed.

Lemma C6_range_then_lookup_witness :
  Get engine_empty "absent" 3 5 init_state = (Err (ENotFound "absent"), init_state).
Proof. exact (C6_range_then_lookup engine_empty "absent" 3 5 init_state eq_refl). Defined.

(* ================================================================== *)
(** * Entries with line-base 0 or line-width < line-base *)

Definition line_base0 : list ascii := list_ascii_of_string "s	10	0	0	1".

(** C9: an entry with line-base 0 is accepted, and Get on it with a valid
    range panics (integer division by zero). *)
Theorem C9_lineBase_zero_panics :
  parseIndex line_base0 = Ok [mkEntry "s" 10 0 0 1] /\
  (forall (f : indexedFasta) (seqName : string) (ent : indexEntry) (start end_ : Z) (st : state),
     seqs f !! seqName = Some ent -> ie_lineBase ent = 0 ->
     0 <= start < end_ -> end_ <= ie_length ent ->
     fst (Get f seqName start end_ st) = Panic).
Proof.
  split; [vm_compute; reflexivity|].
  intros f seqName ent start end_ st Hl Hb Hr He. unfold Get.
  destruct (Z.leb_spec end_ start); [lia|]. rewrite Hl.
  destruct (Z.ltb_spec (ie_length ent) end_); [lia|].
  unfold get_entry, translate, div64, bind, panic. rewrite Hb. reflexivity.
Qed.

Lemma C9_lineBase_zero_panics_witness :
  fst (Get (newLazyIndexed [] [mkEntry "s" 10 0 0 1] (fun c => c)) "s" 2 5 init_state) = Panic.
Proof.
  apply (proj2 C9_lineBase_zero_panics _ "s" (mkEntry "s" 10 0 0 1)); simpl; try lia.
  reflexivity.
Defined.

Definition narrow_entry : indexEntry := mkEntry "s" 10 0 4 3.

(** C10 (as stated, refuted): for line-width < line-base the physical start
    offset is not near 2^64 in general: at start 0 it is the entry offset. *)
Lemma C10_counterexample :
  parseIndex (list_ascii_of_string "s	10	0	4	3") = Ok [narrow_entry] /\
  fst (translate narrow_entry 0 1 init_state) = Ok (2 ^ 64 - 1, 0, 1).
Proof. split; vm_compute; reflexivity. Qed.

(** C10 (amended): such an entry is accepted; Get computes charsPerNewline
    as 2^64 - (lineBase - lineWidth) and the physical start offset as
    (offset + start - (lineBase - lineWidth) * (start / lineBase)) mod 2^64. *)
Theorem C10_wrapping_charsPerNewline :
  parseIndex (list_ascii_of_string "s	10	0	4	3") = Ok [narrow_entry] /\
  (forall (ent : indexEntry) (start end_ : Z) (st : state),
     entry_u64 ent -> 0 <= start < 2 ^ 64 ->
     1 <= ie_lineBase ent -> ie_lineWidth ent < ie_lineBase ent ->
     exists capacity,
       fst (translate ent start end_ st) =
       Ok (2 ^ 64 - (ie_lineBase ent - ie_lineWidth ent),
           (ie_offset ent + start - (ie_lineBase ent - ie_lineWidth ent) * (start / ie_lineBase ent))
             mod 2 ^ 64,
           capacity)).
Proof.
  split; [vm_compute; reflexivity|].
  intros ent start end_ st Hu Hs Hb Hw.
  unfold translate, div64, mod64, bind, ret.
  destruct (Z.eqb_spec (ie_lineBase ent) 0); [lia|].
  set (d := ie_lineBase ent - ie_lineWidth ent).
  assert (Hc : u64 (ie_lineWidth ent - ie_lineBase ent) = 2 ^ 64 - d).
  { unfold u64. replace (ie_lineWidth ent - ie_lineBase ent) with ((2 ^ 64 - d) + (-1) * 2 ^ 64) by (unfold d; ring).
    rewrite Z.mod_add by lia. apply Z.mod_small. unfold entry_u64 in Hu. unfold d. lia. }
  rewrite Hc.
  assert (Ho : u64 (ie_offset ent + start + u64 ((2 ^ 64 - d) * (start / ie_lineBase ent)))
               = (ie_offset ent + start - d * (start / ie_lineBase ent)) mod 2 ^ 64).
  { unfold u64. rewrite Zplus_mod_idemp_r.
    replace (ie_offset ent + start + (2 ^ 64 - d) * (start / ie_lineBase ent))
      with ((ie_offset ent + start - d * (start / ie_lineBase ent)) + (start / ie_lineBase ent) * 2 ^ 64)
      by ring.
    apply Z.mod_add. lia. }
  rewrite Ho.
  destruct (u64 (ie_lineBase ent - start mod ie_lineBase ent) <? u64 (end_ - start));
    simpl; eexists; reflexivity.
Qed.

Lemma C10_wrapping_charsPerNewline_witness :
  exists capacity, fst (translate narrow_entry 8 9 init_state) =
    Ok (2 ^ 64 - (4 - 3), (0 + 8 - (4 - 3) * (8 / 4)) mod 2 ^ 64, capacity).
Proof.
  apply (proj2 C10_wrapping_charsPerNewline narrow_entry 8 9 init_state).
  - unfold entry_u64; simpl; lia.
  - lia.
  - simpl; lia.
  - simpl; lia.
Defined.

(* ================================================================== *)
(** * The worked example *)

Definition ex_engine : indexedFasta :=
  newLazyIndexed ex_data [mkEntry "seq1" 10 0 4 5] (fun c => c).

(** C2 (as stated, refuted): Get("seq1", 2, 8) does not return "GTAC". *)
Lemma C2_counterexample :
  NewIndexed ex_data ex_index (fun c => c) = Ok ex_engine /\
  fst (Get ex_engine "seq1" 2 8 init_state) <> Ok (list_ascii_of_string "GTAC").
Proof. split; [reflexivity | vm_compute; discriminate]. Qed.

(* ================================================================== *)
(** * Arithmetic of the line layout *)

Section Layout.
Variables lb lw : Z.
Hypothesis Hlb : 1 <= lb.
Hypothesis Hlw : lb <= lw.

Lemma divmod_lw (k r : Z) : 0 <= r < lw -> (k * lw + r) / lw = k /\ (k * lw + r) mod lw = r.
Proof.
  intros Hr. split.
  - symmetry. apply (Z.div_unique_pos _ _ _ r); lia.
  - symmetry. apply (Z.mod_unique_pos _ _ k); lia.
Qed.

Lemma data_count_at (k r : Z) : 0 <= r < lw -> data_count lb lw (k * lw + r) = k * lb + Z.min r lb.
Proof. intros Hr. unfold data_count. destruct (divmod_lw k r Hr) as [-> ->]. reflexivity. Qed.

(** One more byte: a base position adds one to the count. *)
Lemma data_count_step (x : Z) :
  0 <= x ->
  (x mod lw < lb -> data_count lb lw (x + 1) = data_count lb lw x + 1) /\
  (lb <= x mod lw -> data_count lb lw (x + 1) = data_count lb lw x).
Proof.
  intros Hx.
  pose proof (Z.div_mod x lw ltac:(lia)) as Hd. pose proof (Z.mod_pos_bound x lw ltac:(lia)) as Hm.
  set (q := x / lw) in *. set (r := x mod lw) in *.
  assert (Hx' : x = q * lw + r) by lia.
  rewrite Hx'. rewrite (data_count_at q r) by lia.
  destruct (Z.eq_dec (r + 1) lw) as [Heq|Hne].
  - replace (q * lw + r + 1) with ((q + 1) * lw + 0) by lia.
    rewrite data_count_at by lia. split; intros; lia.
  - replace (q * lw + r + 1) with (q * lw + (r + 1)) by lia.
    rewrite data_count_at by lia. split; intros; lia.
Qed.

Lemma data_count_mono (x k : Z) : 0 <= x -> 0 <= k -> data_count lb lw x <= data_count lb lw (x + k).
Proof.
  intros Hx Hk. pattern k. apply natlike_ind; [rewrite Z.add_0_r; lia| |lia].
  intros j Hj IH. replace (x + Z.succ j) with ((x + j) + 1) by lia.
  destruct (data_count_step (x + j) ltac:(lia)) as [H1 H2].
  destruct (Z.lt_ge_cases ((x + j) mod lw) lb); [rewrite H1|rewrite H2]; lia.
Qed.

Lemma phys_of_count (off x : Z) :
  0 <= x -> x mod lw < lb ->
  off + data_count lb lw x / lb * lw + data_count lb lw x mod lb = off + x.
Proof.
  intros Hx Hr.
  pose proof (Z.div_mod x lw ltac:(lia)) as Hd. pose proof (Z.mod_pos_bound x lw ltac:(lia)) as Hm.
  set (q := x / lw) in *. set (r := x mod lw) in *.
  unfold data_count. fold q r. rewrite Z.min_l by lia.
  assert (Hq : (q * lb + r) / lb = q) by (symmetry; apply (Z.div_unique_pos _ _ _ r); lia).
  assert (Hr' : (q * lb + r) mod lb = r) by (symmetry; apply (Z.mod_unique_pos _ _ q); lia).
  rewrite Hq, Hr'. lia.
Qed.

(** The start of the span of [Get]: [start + charsPerNewline * (start / lineBase)]
    bytes into the sequence, at count [start]. *)
Lemma data_count_start (s : Z) :
  0 <= s ->
  s + (lw - lb) * (s / lb) = s / lb * lw + s mod lb /\
  data_count lb lw (s / lb * lw + s mod lb) = s.
Proof.
  intros Hs. pose proof (Z.div_mod s lb ltac:(lia)). pose proof (Z.mod_pos_bound s lb ltac:(lia)).
  split; [lia|]. rewrite data_count_at by lia. rewrite Z.min_l by lia. lia.
Qed.

(** The number of line-break runs [Get] reads. *)
Definition newlines (s e : Z) : Z :=
  if lb - s mod lb <? e - s then 1 + (e - s - (lb - s mod lb)) / lb else 0.

(** The span of [Get] covers exactly the bases [start, end), and ends no
    later than [end + (end / lineBase) * charsPerNewline] bytes in. *)
Lemma span_count (s e : Z) :
  0 <= s < e ->
  let x0 := s / lb * lw + s mod lb in
  let cap := e - s + newlines s e * (lw - lb) in
  data_count lb lw (x0 + cap) = e /\ x0 + cap <= e + e / lb * (lw - lb) /\
  0 <= newlines s e <= e / lb.
Proof.
  intros Hse x0 cap.
  pose proof (Z.div_mod s lb ltac:(lia)) as Hds. pose proof (Z.mod_pos_bound s lb ltac:(lia)) as Hms.
  set (q := s / lb) in *. set (p := s mod lb) in *.
  unfold cap, newlines. fold p.
  destruct (Z.ltb_spec (lb - p) (e - s)) as [Hlt|Hge].
  - set (t := e - s - (lb - p)).
    pose proof (Z.div_mod t lb ltac:(lia)) as Hdt. pose proof (Z.mod_pos_bound t lb ltac:(lia)) as Hmt.
    assert (Ht0 : 0 <= t / lb) by (apply Z.div_pos; lia).
    set (j := t / lb) in *. set (r := t mod lb) in *.
    assert (He : e = (q + 1 + j) * lb + r) by lia.
    assert (Hed : e / lb = q + 1 + j) by (symmetry; apply (Z.div_unique_pos _ _ _ r); lia).
    replace (x0 + (e - s + (1 + j) * (lw - lb))) with ((q + 1 + j) * lw + r) by (unfold x0; lia).
    rewrite data_count_at by lia. rewrite Z.min_l by lia. rewrite Hed.
    assert (0 <= q) by (apply Z.div_pos; lia).
    split; [lia|]. split; [nia|]. lia.
  - assert (0 <= q) by (apply Z.div_pos; lia).
    assert (Hq : q <= e / lb) by (apply Z.div_le_mono; lia).
    destruct (Z.eq_dec (p + (e - s)) lw) as [Heq|Hne].
    + replace (x0 + (e - s + 0 * (lw - lb))) with ((q + 1) * lw + 0) by (unfold x0; lia).
      rewrite data_count_at by lia. split; [lia|]. split; [nia|]. lia.
    + replace (x0 + (e - s + 0 * (lw - lb))) with (q * lw + (p + (e - s))) by (unfold x0; lia).
      rewrite data_count_at by lia. split; [lia|]. split; [nia|]. lia.
Qed.

End Layout.

(* ================================================================== *)
(** * The de-interleaving loop *)

Lemma list_write_app (l pre suf : list ascii) :
  (length l <= length suf)%nat ->
  list_write (pre ++ suf) (length pre) l = pre ++ l ++ drop (length l) suf.
Proof.
  revert pre suf. induction l as [|c l IH]; intros pre suf Hl; [reflexivity|].
  destruct suf as [|d suf]; simpl in Hl; [lia|]. simpl.
  rewrite <- (Nat.add_0_r (length pre)), insert_app_r, Nat.add_0_r. simpl.
  replace (pre ++ c :: suf) with ((pre ++ [c]) ++ suf) by (rewrite <- app_assoc; reflexivity).
  replace (S (length pre)) with (length (pre ++ [c])) by (rewrite length_app; simpl; lia).
  rewrite IH by lia. rewrite <- app_assoc. reflexivity.
Qed.

Lemma list_write_take (rb l : list ascii) :
  (length l <= length rb)%nat -> take (length l) (list_write rb 0 l) = l.
Proof.
  intros Hl. pose proof (list_write_app l [] rb Hl) as H. simpl in H. rewrite H.
  apply take_app_length.
Qed.

Lemma zseq_nil (a : Z) : zseq a a = [].
Proof. unfold zseq. now rewrite Z.sub_diag. Qed.

Lemma zseq_cons (a b : Z) : a < b -> zseq a b = a :: zseq (a + 1) b.
Proof.
  intros H. unfold zseq. replace (Z.to_nat (b - a)) with (S (Z.to_nat (b - (a + 1)))) by lia.
  simpl. rewrite Z.add_0_r. f_equal. rewrite <- seq_shift, map_map. apply map_ext. intros k. lia.
Qed.

Lemma length_zseq (a b : Z) : a <= b -> Z.of_nat (length (zseq a b)) = b - a.
Proof. intros H. unfold zseq. rewrite length_map, length_seq. lia. Qed.

Lemma linePos_next (lb lw x : Z) :
  1 <= lb <= lw -> lw < 2 ^ 64 -> 0 <= x ->
  (if u64 (x mod lw + 1) =? lw then 0 else u64 (x mod lw + 1)) = (x + 1) mod lw.
Proof.
  intros Hb Hw Hx.
  pose proof (Z.div_mod x lw ltac:(lia)) as Hd. pose proof (Z.mod_pos_bound x lw ltac:(lia)) as Hm.
  set (q := x / lw) in *. set (r := x mod lw) in *.
  unfold u64. rewrite (Z.mod_small (r + 1)) by lia.
  destruct (Z.eqb_spec (r + 1) lw) as [Heq|Hne].
  - replace (x + 1) with ((q + 1) * lw + 0) by lia.
    symmetry. exact (proj2 (divmod_lw lw (q + 1) 0 ltac:(lia))).
  - replace (x + 1) with (q * lw + (r + 1)) by lia.
    symmetry. exact (proj2 (divmod_lw lw q (r + 1) ltac:(lia))).
Qed.

(** The loop copies the bytes of the span whose cycle position is below
    [lineBase]: for a span [k] bytes long starting [x] bytes into the
    sequence, these are the bases [data_count x] to [data_count (x + k)]. *)
Lemma copy_loop_span (ent : indexEntry) (data : list ascii) (n : nat) :
  1 <= ie_lineBase ent <= ie_lineWidth ent -> ie_lineWidth ent < 2 ^ 64 -> 0 <= ie_offset ent ->
  forall (k : nat) (x : Z) (rp : nat) (rb : list ascii),
    0 <= x -> ie_offset ent + x + Z.of_nat k <= Z.of_nat (length data) ->
    Z.of_nat rp + (data_count (ie_lineBase ent) (ie_lineWidth ent) (x + Z.of_nat k)
                   - data_count (ie_lineBase ent) (ie_lineWidth ent) x) <= Z.of_nat n ->
    copy_loop (ie_lineBase ent) (ie_lineWidth ent) n
              (take k (drop (Z.to_nat (ie_offset ent + x)) data)) (x mod ie_lineWidth ent) rp rb =
    Some (list_write rb rp
            (map (fun i => nth_byte data (phys ent i))
                 (zseq (data_count (ie_lineBase ent) (ie_lineWidth ent) x)
                       (data_count (ie_lineBase ent) (ie_lineWidth ent) (x + Z.of_nat k))))).
Proof.
  intros Hb Hw Ho k. set (lb := ie_lineBase ent) in *. set (lw := ie_lineWidth ent) in *.
  induction k as [|k IH]; intros x rp rb Hx Hlen Hn.
  - simpl. rewrite Z.add_0_r, zseq_nil. reflexivity.
  - destruct (lookup_lt_is_Some_2 data (Z.to_nat (ie_offset ent + x)) ltac:(lia)) as [c Hc].
    rewrite (drop_S _ _ _ Hc). simpl take. simpl copy_loop.
    rewrite (linePos_next lb lw x) by lia.
    replace (S (Z.to_nat (ie_offset ent + x))) with (Z.to_nat (ie_offset ent + (x + 1))) by lia.
    replace (x + Z.of_nat (S k)) with ((x + 1) + Z.of_nat k) in * by lia.
    destruct (data_count_step lb lw (proj1 Hb) (proj2 Hb) x Hx) as [Hin Hout].
    pose proof (data_count_mono lb lw (proj1 Hb) (proj2 Hb) (x + 1) (Z.of_nat k) ltac:(lia) ltac:(lia)) as Hmono.
    destruct (Z.ltb_spec (x mod lw) lb) as [Hlt|Hge].
    + pose proof (Hin Hlt) as Hs. rewrite Hs in Hmono.
      destruct (Nat.ltb_spec rp n) as [Hrp|Hrp]; [|lia].
      rewrite IH by lia. rewrite Hs.
      rewrite (zseq_cons (data_count lb lw x)) by lia. simpl.
      change (phys ent (data_count lb lw x))
        with (ie_offset ent + data_count lb lw x / lb * lw + data_count lb lw x mod lb).
      rewrite (phys_of_count lb lw (proj1 Hb) (proj2 Hb) (ie_offset ent) x Hx Hlt).
      replace (nth_byte data (ie_offset ent + x)) with c
        by (unfold nth_byte; symmetry; exact (nth_lookup_Some _ _ _ _ Hc)).
      reflexivity.
    + pose proof (Hout Hge) as Hs. rewrite Hs in Hmono.
      destruct (Z.ltb_spec (x mod lw) lb); [lia|].
      rewrite IH by lia. rewrite Hs. reflexivity.
Qed.

(* ================================================================== *)
(** * The read-through cache *)

Lemma s64_small (x : Z) : 0 <= x < 2 ^ 63 -> s64 x = x.
Proof.
  intros H. unfold s64. rewrite Z.mod_small by lia.
  destruct (Z.ltb_spec x (2 ^ 63)); lia.
Qed.

Lemma u64_small (x : Z) : 0 <= x < 2 ^ 64 -> u64 x = x.
Proof. intros H. unfold u64. apply Z.mod_small. lia. Qed.

Lemma take_drop_prefix (arr data : list ascii) (bo len i n : nat) :
  take len arr = take len (drop bo data) -> (i + n <= len)%nat ->
  take n (drop i arr) = take n (drop (bo + i) data).
Proof.
  intros H Hle.
  rewrite take_drop_commute.
  replace (take (i + n) arr) with (take (i + n) (take len arr)) by (rewrite take_take; f_equal; lia).
  rewrite H, take_take. replace (min (i + n) len) with (i + n)%nat by lia.
  rewrite <- take_drop_commute, drop_drop. reflexivity.
Qed.

(** [read] returns the [n] bytes of the source at [off] and keeps the cache
    window consistent, whether the window already holds them or not. *)
Lemma read_ok (data : list ascii) (st : state) (off n : Z) :
  cache_ok data st -> 0 <= off -> 0 <= n ->
  off + n <= Z.of_nat (length data) -> Z.of_nat (length data) < 2 ^ 63 ->
  exists st', read data off n st = (Ok (take (Z.to_nat n) (drop (Z.to_nat off) data)), st') /\
              cache_ok data st' /\ resArr st' = resArr st.
Proof.
  intros (Hbo & Hbl & Hbe & Hbc) Ho Hn Hle Hlen.
  unfold read, bind, get_st.
  rewrite (s64_small (off + n)) by lia.
  rewrite (s64_small (bufOff st + Z.of_nat (bufLen st))) by lia.
  destruct ((off <? bufOff st) || (bufOff st + Z.of_nat (bufLen st) <? off + n)) eqn:Hc.
  - (* refill *)
    destruct (Z.ltb_spec off 0); [lia|].
    set (bufSize := if 8192 <? n then n else 8192).
    assert (Hbs : n <= bufSize /\ 0 < bufSize) by (unfold bufSize; destruct (Z.ltb_spec 8192 n); lia).
    set (r := source_read data off (Z.to_nat bufSize)).
    assert (Hr : Z.of_nat (length r) = Z.min bufSize (Z.of_nat (length data) - off)).
    { unfold r, source_read. rewrite length_take, length_drop. lia. }
    destruct (Z.ltb_spec (Z.of_nat (length r)) n); [lia|].
    unfold put_st. cbv beta iota.
    rewrite (s64_small (off + Z.of_nat (length r))) by lia.
    destruct (Z.ltb_spec off off); [lia|]. destruct (Z.ltb_spec (off + Z.of_nat (length r)) (off + n)); [lia|].
    simpl orb. cbv iota.
    set (arr2 := r ++ drop (length r) (resize (bufArr st) (Z.to_nat bufSize))).
    assert (Ha2 : (length r <= length arr2)%nat) by (unfold arr2; rewrite length_app; lia).
    unfold slice. rewrite Z.sub_diag.
    destruct (Z.leb_spec 0 0); [|lia]. destruct (Z.leb_spec 0 (off + n - off)); [|lia].
    destruct (Z.leb_spec (off + n - off) (Z.of_nat (length arr2))); [|lia].
    simpl. unfold ret.
    assert (Hrt : take (length r) (drop (Z.to_nat off) data) = r).
    { unfold r, source_read. rewrite length_take, length_drop.
      destruct (Nat.le_ge_cases (Z.to_nat bufSize) (length data - Z.to_nat off)).
      - rewrite Nat.min_l by lia. reflexivity.
      - rewrite Nat.min_r by lia. rewrite !take_ge by (rewrite length_drop; lia). reflexivity. }
    eexists. split.
    { f_equal. f_equal. replace (Z.to_nat (off + n - off - 0)) with (Z.to_nat n) by lia.
      simpl (Z.to_nat 0). rewrite drop_0. unfold arr2. rewrite take_app_le by lia.
      rewrite <- Hrt, take_take. f_equal. lia. }
    split; [|reflexivity]. split; [exact Ho|]. split; [simpl; lia|].
    split; [simpl; lia|]. simpl. unfold arr2. rewrite take_app_length. symmetry. exact Hrt.
  - (* cache hit *)
    apply orb_false_iff in Hc. destruct Hc as [H1 H2]. apply Z.ltb_ge in H1. apply Z.ltb_ge in H2.
    unfold slice.
    destruct (Z.leb_spec 0 (off - bufOff st)); [|lia].
    destruct (Z.leb_spec (off - bufOff st) (off + n - bufOff st)); [|lia].
    destruct (Z.leb_spec (off + n - bufOff st) (Z.of_nat (length (bufArr st)))); [|lia].
    simpl. unfold ret. eexists. split; [|split; [exact (conj Hbo (conj Hbl (conj Hbe Hbc)))|reflexivity]].
    f_equal. f_equal. replace (off + n - bufOff st - (off - bufOff st)) with n by lia.
    rewrite (take_drop_prefix (bufArr st) data (Z.to_nat (bufOff st)) (bufLen st)
               (Z.to_nat (off - bufOff st)) (Z.to_nat n) Hbc) by lia.
    f_equal. f_equal. lia.
Qed.

(* ================================================================== *)
(** * Get on an entry that matches its data *)

Lemma ceil_bound (L lb c e : Z) :
  1 <= lb -> 0 <= c -> 0 <= e <= L -> e + e / lb * c <= L + (L + lb - 1) / lb * c.
Proof.
  intros Hb Hc He. assert (e / lb <= (L + lb - 1) / lb) by (apply Z.div_le_mono; lia).
  nia.
Qed.

Lemma translate_ok (ent : indexEntry) (data : list ascii) (start end_ : Z) (st : state) :
  holds_index_bytes ent data -> 0 <= start < end_ -> end_ <= ie_length ent ->
  translate ent start end_ st =
  (Ok (ie_lineWidth ent - ie_lineBase ent,
       ie_offset ent + (start / ie_lineBase ent * ie_lineWidth ent + start mod ie_lineBase ent),
       end_ - start + newlines (ie_lineBase ent) start end_ * (ie_lineWidth ent - ie_lineBase ent)), st).
Proof.
  intros (Hu & Hb & Hext & Hlen & _) Hse He. unfold entry_u64 in Hu.
  set (lb := ie_lineBase ent) in *. set (lw := ie_lineWidth ent) in *.
  set (off := ie_offset ent) in *. set (L := ie_length ent) in *.
  destruct (span_count lb lw (proj1 Hb) (proj2 Hb) start end_ Hse) as (_ & Hcap & Hnl).
  destruct (data_count_start lb lw (proj1 Hb) (proj2 Hb) start ltac:(lia)) as [Hx0 _].
  pose proof (ceil_bound L lb (lw - lb) end_ (proj1 Hb) ltac:(lia) ltac:(lia)) as Hceil.
  assert (Hq : 0 <= start / lb <= end_ / lb) by (split; [apply Z.div_pos|apply Z.div_le_mono]; lia).
  assert (Hm : 0 <= start mod lb < lb) by (apply Z.mod_pos_bound; lia).
  assert (Hx0n : 0 <= start / lb * lw) by (apply Z.mul_nonneg_nonneg; lia).
  assert (Hel : end_ / lb <= end_).
  { apply Z.div_le_upper_bound; [lia|].
    rewrite <- (Z.mul_1_l end_) at 1. apply Z.mul_le_mono_nonneg_r; lia. }
  assert (Hc1 : 0 <= (lw - lb) * (start / lb) <= end_ / lb * (lw - lb)).
  { split; [apply Z.mul_nonneg_nonneg; lia|].
    rewrite Z.mul_comm. apply Z.mul_le_mono_nonneg_r; lia. }
  assert (Hc2 : 0 <= newlines lb start end_ * (lw - lb) <= end_ / lb * (lw - lb)).
  { split; [apply Z.mul_nonneg_nonneg; lia|]. apply Z.mul_le_mono_nonneg_r; lia. }
  unfold translate, div64, mod64, bind, ret. fold lb lw off.
  destruct (Z.eqb_spec lb 0); [lia|].
  rewrite (u64_small (lw - lb)) by lia.
  rewrite (u64_small ((lw - lb) * (start / lb))) by lia.
  rewrite (u64_small (off + start + (lw - lb) * (start / lb))) by lia.
  rewrite (u64_small (lb - start mod lb)) by lia.
  rewrite (u64_small (end_ - start)) by lia.
  unfold newlines in *. revert Hnl Hc2 Hcap.
  destruct (Z.ltb_spec (lb - start mod lb) (end_ - start)); intros Hnl Hc2 Hcap.
  - rewrite (u64_small (end_ - start - (lb - start mod lb))) by lia.
    assert (Hd : 0 <= (end_ - start - (lb - start mod lb)) / lb) by (apply Z.div_pos; lia).
    rewrite (u64_small (1 + (end_ - start - (lb - start mod lb)) / lb)) by lia.
    rewrite (u64_small ((1 + (end_ - start - (lb - start mod lb)) / lb) * (lw - lb))) by lia.
    rewrite u64_small by lia. rewrite <- Hx0, Z.add_assoc. reflexivity.
  - rewrite (u64_small (0 * (lw - lb))) by lia. rewrite u64_small by lia.
    rewrite <- Hx0, Z.add_assoc. reflexivity.
Qed.

Lemma length_bases (ent : indexEntry) (data : list ascii) (start end_ : Z) :
  start <= end_ -> Z.of_nat (length (bases ent data start end_)) = end_ - start.
Proof. intros H. unfold bases. rewrite length_map. apply length_zseq. lia. Qed.

(** On an entry whose data file holds the bytes it describes, [Get] returns
    the bases [start, end) (through the encoding) and leaves the cache
    window consistent. *)
Lemma get_entry_ok (f : indexedFasta) (ent : indexEntry) (start end_ : Z) (st : state) :
  holds_index_bytes ent (reader f) -> 0 <= start < end_ -> end_ <= ie_length ent ->
  cache_ok (reader f) st ->
  exists st', get_entry f ent start end_ st = (Ok (map (enc f) (bases ent (reader f) start end_)), st')
              /\ cache_ok (reader f) st'.
Proof.
  intros Hh Hse He Hc. pose proof Hh as (Hu & Hb & Hext & Hlen & _). unfold entry_u64 in Hu.
  set (data := reader f) in *.
  set (lb := ie_lineBase ent) in *. set (lw := ie_lineWidth ent) in *.
  set (off := ie_offset ent) in *. set (L := ie_length ent) in *.
  destruct (span_count lb lw (proj1 Hb) (proj2 Hb) start end_ Hse) as (Hcnt & Hcap & Hnl).
  destruct (data_count_start lb lw (proj1 Hb) (proj2 Hb) start ltac:(lia)) as [_ Hcnt0].
  pose proof (ceil_bound L lb (lw - lb) end_ (proj1 Hb) ltac:(lia) ltac:(lia)) as Hceil.
  assert (Hx0n : 0 <= start / lb * lw) by (apply Z.mul_nonneg_nonneg; [apply Z.div_pos|]; lia).
  assert (Hm : 0 <= start mod lb < lb) by (apply Z.mod_pos_bound; lia).
  assert (Hc2 : 0 <= newlines lb start end_ * (lw - lb)) by (apply Z.mul_nonneg_nonneg; lia).
  set (x0 := start / lb * lw + start mod lb) in *.
  set (cap := end_ - start + newlines lb start end_ * (lw - lb)) in *.
  unfold get_entry, bind. rewrite (translate_ok ent data start end_ st Hh Hse He). fold lb lw off.
  fold x0 cap data. cbv beta iota.
  rewrite (s64_small (off + x0)) by lia. rewrite (s64_small cap) by lia.
  destruct (read_ok data st (off + x0) cap Hc ltac:(lia) ltac:(lia) ltac:(lia) Hlen)
    as (st1 & Hr & Hc1 & _).
  rewrite Hr. cbv beta iota.
  rewrite (u64_small (end_ - start)) by lia. rewrite (s64_small (end_ - start)) by lia.
  destruct (Z.ltb_spec (end_ - start) 0); [lia|].
  unfold get_st, mod64, ret. cbv beta iota.
  replace (off + x0 - off) with x0 by lia. rewrite (u64_small x0) by lia.
  destruct (Z.eqb_spec lw 0); [lia|]. cbv beta iota.
  set (rb := resize (resArr st1) (Z.to_nat (end_ - start))).
  assert (Hrb : (Z.to_nat (end_ - start) <= length rb)%nat).
  { unfold rb, resize. destruct (Nat.ltb_spec (length (resArr st1)) (Z.to_nat (end_ - start))).
    - rewrite repeat_length. lia.
    - lia. }
  pose proof (copy_loop_span ent data (Z.to_nat (end_ - start)) Hb ltac:(lia) ltac:(lia)
                (Z.to_nat cap) x0 0 rb ltac:(lia) ltac:(lia)) as Hloop.
  fold lb lw off in Hloop. rewrite Z2Nat.id in Hloop by lia. rewrite Hcnt, Hcnt0 in Hloop.
  specialize (Hloop ltac:(lia)). rewrite Hloop.
  fold (bases ent data start end_).
  assert (Hbl : length (bases ent data start end_) = Z.to_nat (end_ - start)).
  { pose proof (length_bases ent data start end_ ltac:(lia)). lia. }
  rewrite <- Hbl. rewrite list_write_take by lia.
  unfold put_st. eexists. split; [reflexivity|]. exact Hc1.
Qed.

Lemma Get_ok (f : indexedFasta) (seqName : string) (ent : indexEntry) (start end_ : Z) (st : state) :
  seqs f !! seqName = Some ent -> holds_index_bytes ent (reader f) ->
  0 <= start < end_ -> end_ <= ie_length ent -> cache_ok (reader f) st ->
  exists st', Get f seqName start end_ st = (Ok (map (enc f) (bases ent (reader f) start end_)), st')
              /\ cache_ok (reader f) st'.
Proof.
  intros Hl Hh Hse He Hc. unfold Get.
  destruct (Z.leb_spec end_ start); [lia|]. rewrite Hl.
  destruct (Z.ltb_spec (ie_length ent) end_); [lia|].
  now apply get_entry_ok.
Qed.

Lemma init_state_ok (data : list ascii) : cache_ok data init_state.
Proof. unfold cache_ok; simpl. repeat split; lia. Qed.

(** X10: on an engine all of whose entries match the data, every Get call (with
    uint64 arguments) keeps the cache window consistent, whatever it
    returns: [cache_ok] is an invariant of such engines. *)
Lemma Get_keeps_cache_ok (f : indexedFasta) (seqName : string) (start end_ : Z) (st : state) :
  (forall n e, seqs f !! n = Some e -> holds_index_bytes e (reader f)) ->
  0 <= start -> cache_ok (reader f) st ->
  cache_ok (reader f) (snd (Get f seqName start end_ st)).
Proof.
  intros Hall Hs Hc. unfold Get.
  destruct (Z.leb_spec end_ start); [exact Hc|].
  destruct (seqs f !! seqName) as [ent|] eqn:Hl; [|exact Hc].
  destruct (Z.ltb_spec (ie_length ent) end_); [exact Hc|].
  destruct (get_entry_ok f ent start end_ st (Hall _ _ Hl) ltac:(lia) ltac:(lia) Hc) as (st' & -> & Hc').
  exact Hc'.
Qed.

(* ================================================================== *)
(** * Facts about the extracted bases *)

Lemma data_positions_count (ent : indexEntry) (x : Z) (k : nat) :
  1 <= ie_lineBase ent <= ie_lineWidth ent -> 0 <= x ->
  Z.of_nat (data_positions ent (ie_offset ent + x) (Z.of_nat k)) =
  data_count (ie_lineBase ent) (ie_lineWidth ent) (x + Z.of_nat k)
  - data_count (ie_lineBase ent) (ie_lineWidth ent) x.
Proof.
  intros Hb Hx. unfold data_positions. rewrite Nat2Z.id.
  induction k as [|k IH].
  - simpl. rewrite Z.add_0_r. lia.
  - rewrite seq_S, List.filter_app, length_app. simpl List.filter.
    replace (ie_offset ent + x + Z.of_nat k - ie_offset ent) with (x + Z.of_nat k) by lia.
    destruct (data_count_step (ie_lineBase ent) (ie_lineWidth ent) (proj1 Hb) (proj2 Hb)
                (x + Z.of_nat k) ltac:(lia)) as [Hin Hout].
    replace (x + Z.of_nat (S k)) with (x + Z.of_nat k + 1) by lia.
    case_bool_decide as Hd.
    + rewrite (Hin Hd). simpl. lia.
    + rewrite (Hout ltac:(lia)). simpl. lia.
Qed.

Lemma data_positions_count_Z (ent : indexEntry) (x k : Z) :
  1 <= ie_lineBase ent <= ie_lineWidth ent -> 0 <= x -> 0 <= k ->
  Z.of_nat (data_positions ent (ie_offset ent + x) k) =
  data_count (ie_lineBase ent) (ie_lineWidth ent) (x + k)
  - data_count (ie_lineBase ent) (ie_lineWidth ent) x.
Proof.
  intros Hb Hx Hk. rewrite <- (Z2Nat.id k) by lia. apply data_positions_count; assumption.
Qed.

Lemma bases_no_linebreak (ent : indexEntry) (data : list ascii) (start end_ : Z) :
  holds_index_bytes ent data -> 0 <= start -> end_ <= ie_length ent ->
  Forall (fun c => ~ is_linebreak c) (bases ent data start end_).
Proof.
  intros (_ & _ & _ & _ & Hnl) Hs He. apply List.Forall_forall. intros c Hc.
  unfold bases, zseq in Hc. rewrite map_map in Hc. apply in_map_iff in Hc.
  destruct Hc as (j & <- & Hj). apply in_seq in Hj. apply Hnl. lia.
Qed.

Lemma zseq_app (a b c : Z) : a <= b <= c -> zseq a b ++ zseq b c = zseq a c.
Proof.
  intros H. remember (Z.to_nat (b - a)) as m eqn:Hm. revert a H Hm.
  induction m as [|m IH]; intros a H Hm.
  - assert (a = b) by lia. subst. rewrite zseq_nil. reflexivity.
  - rewrite (zseq_cons a b) by lia. rewrite (zseq_cons a c) by lia. simpl.
    f_equal. apply IH; lia.
Qed.

Lemma bases_app (ent : indexEntry) (data : list ascii) (a b c : Z) :
  a <= b <= c -> bases ent data a b ++ bases ent data b c = bases ent data a c.
Proof. intros H. unfold bases. rewrite <- map_app. f_equal. now apply zseq_app. Qed.

(* ================================================================== *)
(** * Correctness of Get *)

(** C1: for a present name with 0 <= start < end <= length, line-base >= 1,
    line-width >= line-base and a data file holding the bytes the index
    describes, Get returns exactly end - start bytes, none a line-break byte
    (for an encoding that maps no base to one); the physical span it reads
    has exactly end - start positions whose cycle position is below
    line-base.  [cache_ok] holds of a new engine ([init_state_ok]) and is
    kept by every Get on an engine whose entries match the data
    ([Get_keeps_cache_ok]). *)
Theorem C1_get_exact_length (f : indexedFasta) (seqName : string) (ent : indexEntry)
    (start end_ : Z) (st : state) :
  seqs f !! seqName = Some ent -> holds_index_bytes ent (reader f) ->
  0 <= start < end_ -> end_ <= ie_length ent -> cache_ok (reader f) st ->
  (forall c, ~ is_linebreak c -> ~ is_linebreak (enc f c)) ->
  (exists r st', Get f seqName start end_ st = (Ok r, st') /\
     Z.of_nat (length r) = end_ - start /\ Forall (fun c => ~ is_linebreak c) r) /\
  (exists offset capacity, span_of ent start end_ = Some (offset, capacity) /\
     Z.of_nat (data_positions ent offset capacity) = end_ - start).
Proof.
  intros Hl Hh Hse He Hc Henc. split.
  - destruct (Get_ok f seqName ent start end_ st Hl Hh Hse He Hc) as (st' & Hg & _).
    exists (map (enc f) (bases ent (reader f) start end_)), st'. split; [exact Hg|]. split.
    + rewrite length_map. apply length_bases. lia.
    + pose proof (bases_no_linebreak ent (reader f) start end_ Hh ltac:(lia) He) as Hb.
      apply List.Forall_forall. intros c Hin. apply in_map_iff in Hin. destruct Hin as (c0 & <- & Hin).
      apply Henc. exact (proj1 (List.Forall_forall _ _) Hb c0 Hin).
  - pose proof Hh as (Hu & Hb & _).
    set (lb := ie_lineBase ent) in *. set (lw := ie_lineWidth ent) in *.
    destruct (span_count lb lw (proj1 Hb) (proj2 Hb) start end_ Hse) as (Hcnt & _ & Hnl).
    destruct (data_count_start lb lw (proj1 Hb) (proj2 Hb) start ltac:(lia)) as [_ Hcnt0].
    assert (Hx0n : 0 <= start / lb * lw + start mod lb).
    { assert (0 <= start / lb * lw) by (apply Z.mul_nonneg_nonneg; [apply Z.div_pos|]; lia).
      assert (0 <= start mod lb) by (apply Z.mod_pos_bound; lia). lia. }
    assert (Hc2 : 0 <= newlines lb start end_ * (lw - lb)) by (apply Z.mul_nonneg_nonneg; lia).
    unfold span_of. rewrite (translate_ok ent (reader f) start end_ init_state Hh Hse He). simpl fst.
    eexists; eexists; split; [reflexivity|].
    fold lb lw. rewrite data_positions_count_Z by lia. fold lb lw.
    rewrite Hcnt, Hcnt0. reflexivity.
Qed.

Definition ex_entry : indexEntry := mkEntry "seq1" 10 0 4 5.

Lemma ex_holds : holds_index_bytes ex_entry ex_data.
Proof.
  unfold holds_index_bytes, entry_u64, ex_entry. simpl.
  refine (conj _ (conj _ (conj _ (conj _ _)))); [lia | lia | vm_compute; discriminate | vm_compute; reflexivity |].
  intros i Hi.
  assert (i = 0 \/ i = 1 \/ i = 2 \/ i = 3 \/ i = 4 \/ i = 5 \/ i = 6 \/ i = 7 \/ i = 8 \/ i = 9)
    as Hcases by lia.
  unfold is_linebreak.
  repeat destruct Hcases as [->|Hcases]; subst; vm_compute; intros [H|H]; discriminate.
Qed.

Lemma C1_get_exact_length_witness :
  (exists r st', Get ex_engine "seq1" 2 8 init_state = (Ok r, st') /\
     Z.of_nat (length r) = 8 - 2 /\ Forall (fun c => ~ is_linebreak c) r) /\
  (exists offset capacity, span_of ex_entry 2 8 = Some (offset, capacity) /\
     Z.of_nat (data_positions ex_entry offset capacity) = 8 - 2).
Proof.
  apply (C1_get_exact_length ex_engine "seq1" ex_entry 2 8 init_state).
  - reflexivity.
  - exact ex_holds.
  - lia.
  - simpl; lia.
  - apply init_state_ok.
  - intros c H. exact H.
Defined.

(** C3: for a sequence whose data file matches its layout, Get(name, 0,
    length) reads a physical span that lies within the file, and never
    fails with the unexpected-end-of-file error, for every length
    (exact multiples of line-base included). *)
Theorem C3_full_get_in_bounds (f : indexedFasta) (seqName : string) (ent : indexEntry) (st : state) :
  seqs f !! seqName = Some ent -> holds_index_bytes ent (reader f) -> cache_ok (reader f) st ->
  (0 < ie_length ent -> exists offset capacity,
     span_of ent 0 (ie_length ent) = Some (offset, capacity) /\
     ie_offset ent <= offset /\ offset + capacity <= Z.of_nat (length (reader f))) /\
  fst (Get f seqName 0 (ie_length ent) st) <> Err EUnexpectedEOF.
Proof.
  intros Hl Hh Hc. pose proof Hh as (Hu & Hb & Hext & _). unfold entry_u64 in Hu. split.
  - intros HL. unfold span_of.
    rewrite (translate_ok ent (reader f) 0 (ie_length ent) init_state Hh ltac:(lia) ltac:(lia)).
    simpl fst. eexists; eexists; split; [reflexivity|].
    set (lb := ie_lineBase ent) in *. set (lw := ie_lineWidth ent) in *.
    destruct (span_count lb lw (proj1 Hb) (proj2 Hb) 0 (ie_length ent) ltac:(lia)) as (_ & Hcap & _).
    pose proof (ceil_bound (ie_length ent) lb (lw - lb) (ie_length ent) (proj1 Hb) ltac:(lia) ltac:(lia)).
    rewrite Z.div_0_l, Z.mod_0_l in * by lia. lia.
  - destruct (Z.eq_dec (ie_length ent) 0) as [H0|H0].
    + unfold Get. rewrite H0. simpl. discriminate.
    + destruct (Get_ok f seqName ent 0 (ie_length ent) st Hl Hh ltac:(lia) ltac:(lia) Hc) as (st' & -> & _).
      simpl. discriminate.
Qed.

Lemma C3_full_get_in_bounds_witness :
  (0 < 10 -> exists offset capacity,
     span_of ex_entry 0 10 = Some (offset, capacity) /\
     0 <= offset /\ offset + capacity <= Z.of_nat (length ex_data)) /\
  fst (Get ex_engine "seq1" 0 10 init_state) <> Err EUnexpectedEOF.
Proof.
  exact (C3_full_get_in_bounds ex_engine "seq1" ex_entry init_state eq_refl ex_holds (init_state_ok _)).
Defined.

(** C8: for a present name of length L >= 2 (on data matching the index)
    and 0 < k < L, Get(name, 0, k) followed by Get(name, k, L) on the same
    engine give two strings whose concatenation is what Get(name, 0, L)
    then returns. *)
Theorem C8_concat_split (f : indexedFasta) (seqName : string) (ent : indexEntry) (k : Z) (st : state) :
  seqs f !! seqName = Some ent -> holds_index_bytes ent (reader f) -> cache_ok (reader f) st ->
  0 < k < ie_length ent ->
  exists r1 r2 r st1 st2 st3,
    Get f seqName 0 k st = (Ok r1, st1) /\
    Get f seqName k (ie_length ent) st1 = (Ok r2, st2) /\
    Get f seqName 0 (ie_length ent) st2 = (Ok r, st3) /\
    r1 ++ r2 = r.
Proof.
  intros Hl Hh Hc Hk.
  destruct (Get_ok f seqName ent 0 k st Hl Hh ltac:(lia) ltac:(lia) Hc) as (st1 & H1 & Hc1).
  destruct (Get_ok f seqName ent k (ie_length ent) st1 Hl Hh ltac:(lia) ltac:(lia) Hc1) as (st2 & H2 & Hc2).
  destruct (Get_ok f seqName ent 0 (ie_length ent) st2 Hl Hh ltac:(lia) ltac:(lia) Hc2) as (st3 & H3 & _).
  do 6 eexists. split; [exact H1|]. split; [exact H2|]. split; [exact H3|].
  rewrite <- map_app. f_equal. apply bases_app. lia.
Qed.

Lemma C8_concat_split_witness :
  exists r1 r2 r st1 st2 st3,
    Get ex_engine "seq1" 0 3 init_state = (Ok r1, st1) /\
    Get ex_engine "seq1" 3 10 st1 = (Ok r2, st2) /\
    Get ex_engine "seq1" 0 10 st2 = (Ok r, st3) /\
    r1 ++ r2 = r.
Proof.
  exact (C8_concat_split ex_engine "seq1" ex_entry 3 init_state eq_refl ex_holds (init_state_ok _)
           ltac:(simpl; lia)).
Defined.

(** C2 (amended): on the engine built from [seq1\t10\t0\t4\t5] over
    [ACGT\nACGT\nAC\n], Get("seq1", 2, 8) returns "GTACGT", the six bases
    2..7, whatever the cache holds. *)
Theorem C2_worked_example (st : state) :
  cache_ok ex_data st ->
  NewIndexed ex_data ex_index (fun c => c) = Ok ex_engine /\
  exists st', Get ex_engine "seq1" 2 8 st = (Ok (list_ascii_of_string "GTACGT"), st').
Proof.
  intros Hc. split; [reflexivity|].
  destruct (Get_ok ex_engine "seq1" ex_entry 2 8 st eq_refl ex_holds ltac:(lia) ltac:(simpl; lia) Hc)
    as (st' & Hg & _).
  exists st'. rewrite Hg. reflexivity.
Qed.

Lemma C2_worked_example_witness :
  NewIndexed ex_data ex_index (fun c => c) = Ok ex_engine /\
  exists st', Get ex_engine "seq1" 2 8 init_state = (Ok (list_ascii_of_string "GTACGT"), st').
Proof. exact (C2_worked_example init_state (init_state_ok _)). Defined.

(* ================================================================== *)
(** * Reading well-formed index lines *)

Lemma span_while_all (p : ascii -> bool) (l r : list ascii) :
  Forall (fun c => p c = true) l ->
  match r with [] => True | c :: _ => p c = false end ->
  span_while p (l ++ r) = (l, r).
Proof.
  intros Hl Hr. induction Hl as [|c l Hc _ IH]; simpl.
  - destruct r as [|c r]; [reflexivity|]. simpl. rewrite Hr. reflexivity.
  - rewrite Hc, IH. reflexivity.
Qed.

Lemma run_tab_all (p : ascii -> bool) (g r : list ascii) :
  g <> [] -> Forall (fun c => p c = true) g -> p tab = false ->
  run_tab p (g ++ tab :: r) = Some (g, r).
Proof.
  intros Hne Hg Ht. unfold run_tab. rewrite span_while_all by assumption.
  destruct g; [congruence|]. reflexivity.
Qed.

Lemma find_submatch_head (s : list ascii) (g : list (list ascii)) :
  match_at s = Some g -> find_submatch s = Some g.
Proof.
  intros H.
  assert (E : find_submatch s = match match_at s with
                                | Some g => Some g
                                | None => match s with [] => None | _ :: t => find_submatch t end
                                end) by (destruct s; reflexivity).
  rewrite E, H. reflexivity.
Qed.

Lemma scan_lines_aux_line (cur l rest : list ascii) :
  ~ newline ∈ l -> Z.of_nat (length cur + length l) < maxTokenSize ->
  scan_lines_aux cur (l ++ newline :: rest) = dropCR (rev cur ++ l) :: scan_lines_aux [] rest.
Proof.
  revert cur. induction l as [|c l IH]; intros cur Hl Hlen; simpl.
  - rewrite app_nil_r. reflexivity.
  - destruct (Ascii.eqb_spec c newline) as [->|Hc]; [destruct Hl; left|].
    simpl in Hlen. destruct (Z.leb_spec maxTokenSize (Z.of_nat (S (length cur)))); [lia|].
    rewrite IH by (intros Hin; apply Hl; right; exact Hin) || (simpl; lia).
    simpl. rewrite <- app_assoc. reflexivity.
Qed.

(** Lines of fewer than [maxTokenSize] bytes, each followed by a newline. *)
Definition short_line (l : list ascii) : Prop :=
  ~ newline ∈ l /\ Z.of_nat (length l) < maxTokenSize.

Lemma scan_lines_join_app (ls : list (list ascii)) (rest : list ascii) :
  Forall short_line ls ->
  scan_lines (concat (map (fun l => l ++ [newline]) ls) ++ rest) = map dropCR ls ++ scan_lines rest.
Proof.
  unfold scan_lines. induction 1 as [|l ls [Hl Hlen] _ IH]; [reflexivity|].
  simpl. rewrite <- !app_assoc. simpl. rewrite scan_lines_aux_line by (exact Hl || (simpl; lia)).
  rewrite IH. reflexivity.
Qed.

Lemma scan_lines_join (ls : list (list ascii)) :
  Forall short_line ls ->
  scan_lines (concat (map (fun l => l ++ [newline]) ls)) = map dropCR ls.
Proof.
  intros H. rewrite <- (app_nil_r (concat _)), scan_lines_join_app by exact H.
  apply app_nil_r.
Qed.

Lemma parse_lines_all (ls : list (list ascii)) (es acc : list indexEntry) :
  Forall2 (fun l e => parse_line l = Ok e) ls es -> parse_lines ls acc = Ok (acc ++ es).
Proof.
  intros H. revert acc. induction H as [|l e ls es He _ IH]; intros acc; simpl.
  - rewrite app_nil_r. reflexivity.
  - rewrite He, IH, <- app_assoc. reflexivity.
Qed.

(** X1: [parseIndex] reads a line [name\tD1\tD2\tD3\tD4], with [name] a
    non-empty run of non-space bytes and each [Di] a non-empty run of decimal
    digits denoting a uint64 value [vi], as the entry of that name and those
    four values. *)
Theorem parse_line_fields (name d1 d2 d3 d4 : list ascii) (v1 v2 v3 v4 : Z) :
  name <> [] -> Forall (fun c => is_space c = false) name ->
  d1 <> [] -> d2 <> [] -> d3 <> [] -> d4 <> [] ->
  Forall (fun c => is_digit c = true) (d1 ++ d2 ++ d3 ++ d4) ->
  parseUint d1 = Some v1 -> parseUint d2 = Some v2 ->
  parseUint d3 = Some v3 -> parseUint d4 = Some v4 ->
  parse_line (name ++ tab :: d1 ++ tab :: d2 ++ tab :: d3 ++ tab :: d4) =
  Ok (mkEntry (string_of_list_ascii name) v1 v2 v3 v4).
Proof.
  intros Hn Hns H1 H2 H3 H4 Hd P1 P2 P3 P4.
  rewrite !Forall_app in Hd. destruct Hd as (D1 & D2 & D3 & D4).
  unfold parse_line.
  rewrite (find_submatch_head _ [name; d1; d2; d3; d4]); [rewrite P1, P2, P3, P4; reflexivity|].
  unfold match_at.
  rewrite run_tab_all; [|exact Hn| |reflexivity].
  2: { eapply Forall_impl; [exact Hns|]. intros c Hc. simpl. rewrite Hc. reflexivity. }
  rewrite run_tab_all by (exact H1 || exact D1 || reflexivity).
  rewrite run_tab_all by (exact H2 || exact D2 || reflexivity).
  rewrite run_tab_all by (exact H3 || exact D3 || reflexivity).
  rewrite <- (app_nil_r d4), span_while_all by (exact D4 || exact I).
  rewrite app_nil_r. destruct d4; [congruence|]. reflexivity.
Qed.

(** X2: an index made of newline-terminated lines, none containing a
    newline and each shorter than [maxTokenSize] bytes, each of which (without a trailing carriage return) parses to an
    entry, parses to exactly those entries, one per line, in file order. *)
Theorem parseIndex_lines (ls : list (list ascii)) (es : list indexEntry) :
  Forall short_line ls ->
  Forall2 (fun l e => parse_line (dropCR l) = Ok e) ls es ->
  parseIndex (concat (map (fun l => l ++ [newline]) ls)) = Ok es.
Proof.
  intros Hnl Hp. unfold parseIndex. rewrite scan_lines_join by exact Hnl.
  rewrite (parse_lines_all _ es); [reflexivity|].
  apply Forall2_fmap_l. exact Hp.
Qed.

(* ================================================================== *)
(** * SeqNames and FaiToReferenceLengths *)

(** Offset of a catalog name (0 for a name not in the catalog, which
    [seqNames] never holds). *)
Definition offset_of (m : gmap string indexEntry) (n : string) : Z :=
  default 0 (ie_offset <$> m !! n).

Definition offset_le (m : gmap string indexEntry) (a b : string) : Prop :=
  offset_of m a <= offset_of m b.

(** The [seqNames] of [newLazyIndexed]: every key of [seqs] once, sorted by
    offset ([sort.SliceStable] with [offset <]).  The keys are appended in
    map iteration order, which Go leaves unspecified, so names of equal
    offset may come in any order: [SeqNames] returns some list satisfying
    this predicate. *)
Definition is_seqNames (m : gmap string indexEntry) (names : list string) : Prop :=
  names ≡ₚ (map_to_list m).*1 /\ Sorted (offset_le m) names.

#[local] Instance offset_le_dec (m : gmap string indexEntry) : RelDecision (offset_le m).
Proof. intros a b. unfold offset_le. apply Z_le_dec. Defined.

#[local] Instance offset_le_total (m : gmap string indexEntry) : Total (offset_le m).
Proof. intros a b. unfold offset_le. lia. Qed.

(** One admissible [seqNames]: the keys in the order [map_to_list] lists
    them, stably sorted by offset. *)
Definition sorted_names (m : gmap string indexEntry) : list string :=
  merge_sort (offset_le m) (map_to_list m).*1.

(** The loop of [FaiToReferenceLengths] over [SeqNames()]. *)
Fixpoint fai_loop (f : indexedFasta) (names : list string) (m : gmap string Z) : res (gmap string Z) :=
  match names with
  | [] => Ok m
  | ref :: rest =>
    match Len f ref with
    | Ok refLength => fai_loop f rest (<[ref := refLength]> m)
    | Err e => Err e
    | Panic => Panic
    end
  end.

(** [FaiToReferenceLengths]: [NewIndexed(nil, index)] (no data, the default
    encoding), then the loop over its [SeqNames()]; [order] is the
    [seqNames] the engine holds for its catalog. *)
Definition FaiToReferenceLengths (order : gmap string indexEntry -> list string)
    (index : list ascii) : res (gmap string Z) :=
  match NewIndexed [] index (fun c => c) with
  | Ok f => fai_loop f (order (seqs f)) ∅
  | Err e => Err e
  | Panic => Panic
  end.

Lemma sorted_names_ok (m : gmap string indexEntry) : is_seqNames m (sorted_names m).
Proof.
  split.
  - apply merge_sort_Permutation.
  - apply Sorted_merge_sort. apply _.
Qed.

Lemma elem_of_keys_list (m : gmap string indexEntry) (n : string) :
  n ∈ (map_to_list m).*1 <-> is_Some (m !! n).
Proof.
  rewrite list_elem_of_fmap. split.
  - intros ([k e] & -> & Hin). apply elem_of_map_to_list in Hin. simpl. exists e. exact Hin.
  - intros [e He]. exists (n, e). split; [reflexivity|]. apply elem_of_map_to_list. exact He.
Qed.

Lemma fai_loop_spec (f : indexedFasta) (names : list string) (m : gmap string Z) :
  (forall n, n ∈ names -> is_Some (seqs f !! n)) ->
  exists m', fai_loop f names m = Ok m' /\
    forall k, m' !! k = if bool_decide (k ∈ names) then ie_length <$> seqs f !! k else m !! k.
Proof.
  revert m. induction names as [|n ns IH]; intros m Hs; simpl.
  - exists m. split; [reflexivity|]. intros k. reflexivity.
  - destruct (Hs n ltac:(left)) as [e He]. unfold Len. rewrite He.
    destruct (IH (<[n := ie_length e]> m)) as (m' & Hl & Hk).
    { intros k Hk. apply Hs. right. exact Hk. }
    exists m'. split; [exact Hl|]. intros k. rewrite Hk.
    case_bool_decide as Hin; case_bool_decide as Hin'; try reflexivity.
    + exfalso. apply Hin'. right. exact Hin.
    + destruct (decide (k = n)) as [->|Hkn].
      * rewrite lookup_insert_eq, He. reflexivity.
      * exfalso. apply elem_of_cons in Hin' as [|]; [contradiction|contradiction].
    + destruct (decide (k = n)) as [->|Hkn].
      * exfalso. apply Hin'. left.
      * rewrite lookup_insert_ne by congruence. reflexivity.
Qed.

(** X4: the names [newLazyIndexed] finds are exactly the names of the index
    entries, and the entry found under a name is one of the index's entries
    with that name. *)
Theorem build_seqs_domain (index : list indexEntry) (n : string) :
  (is_Some (build_seqs index !! n) <-> n ∈ ie_name <$> index) /\
  (forall e, build_seqs index !! n = Some e -> e ∈ index /\ ie_name e = n).
Proof.
  unfold build_seqs.
  assert (G : forall (m : gmap string indexEntry) l,
    (is_Some (foldl (fun m e => <[ie_name e := e]> m) m l !! n) <->
       is_Some (m !! n) \/ n ∈ ie_name <$> l) /\
    (forall e, foldl (fun m e => <[ie_name e := e]> m) m l !! n = Some e ->
       m !! n = Some e \/ (e ∈ l /\ ie_name e = n))).
  { intros m l. revert m. induction l as [|x l IH]; intros m; simpl.
    - split; [|intros e He; left; exact He].
      split; [intros H; left; exact H|]. intros [H|H]; [exact H|]. apply not_elem_of_nil in H. contradiction.
    - destruct (IH (<[ie_name x := x]> m)) as [IH1 IH2]. split.
      + rewrite IH1. rewrite elem_of_cons.
        destruct (decide (ie_name x = n)) as [<-|Hne].
        * rewrite lookup_insert_eq. split; [intros _; right; left; reflexivity|intros _; left; eexists; reflexivity].
        * rewrite lookup_insert_ne by exact Hne. split.
           ++ intros [H|H]; [left|right; right]; exact H.
           ++ intros [H|[H|H]]; [left; exact H|congruence|right; exact H].
      + intros e He. destruct (IH2 e He) as [H|[H1 H2]].
        * destruct (decide (ie_name x = n)) as [<-|Hne].
          -- rewrite lookup_insert_eq in H. injection H as <-. right. split; [left|reflexivity].
          -- rewrite lookup_insert_ne in H by exact Hne. left. exact H.
        * right. split; [right; exact H1|exact H2]. }
  destruct (G ∅ index) as [G1 G2]. split.
  - rewrite G1, lookup_empty. split; [intros [[? H]|H]; [discriminate|exact H]|intros H; right; exact H].
  - intros e He. destruct (G2 e He) as [H|H]; [rewrite lookup_empty in H; discriminate|exact H].
Qed.

(** X5: [FaiToReferenceLengths] fails exactly as [parseIndex] does, and
    otherwise maps each name of the index to the length of its last index
    line, and no other name, whatever the order of [SeqNames()]. *)
Theorem FaiToReferenceLengths_lengths (order : gmap string indexEntry -> list string)
    (index : list ascii) :
  (forall m, is_seqNames m (order m)) ->
  FaiToReferenceLengths order index =
  match parseIndex index with
  | Ok entries => Ok (ie_length <$> build_seqs entries)
  | Err e => Err e
  | Panic => Panic
  end.
Proof.
  intros Hord. unfold FaiToReferenceLengths, NewIndexed.
  destruct (parseIndex index) as [entries|e|]; [|reflexivity|reflexivity].
  unfold newLazyIndexed; simpl.
  set (m := build_seqs entries).
  destruct (Hord m) as [Hperm _].
  assert (Hmem : forall n, n ∈ order m <-> is_Some (m !! n)).
  { intros n. rewrite Hperm. apply elem_of_keys_list. }
  destruct (fai_loop_spec (mkFasta m [] (fun c => c)) (order m) ∅) as (m' & Hl & Hk).
  { intros n Hn. apply Hmem. exact Hn. }
  simpl in Hk. rewrite Hl. f_equal. apply map_eq. intros k.
  rewrite Hk, lookup_fmap. case_bool_decide as Hin; [reflexivity|].
  rewrite lookup_empty. destruct (m !! k) eqn:Hmk; [|reflexivity].
  exfalso. apply Hin. apply Hmem. eexists. exact Hmk.
Qed.

(* ================================================================== *)
(** * The two paths of read *)

(** X6: a request inside the cache window is served from the buffer with
    the source's bytes, without touching the source or the state. *)
Theorem read_hit (data : list ascii) (st : state) (off n : Z) :
  cache_ok data st -> bufOff st <= off -> 0 <= n ->
  off + n <= bufOff st + Z.of_nat (bufLen st) -> Z.of_nat (length data) < 2 ^ 63 ->
  read data off n st = (Ok (take (Z.to_nat n) (drop (Z.to_nat off) data)), st).
Proof.
  intros (Hbo & Hbl & Hbe & Hbc) Ho Hn Hle Hlen.
  unfold read, bind, get_st.
  rewrite (s64_small (off + n)) by lia.
  rewrite (s64_small (bufOff st + Z.of_nat (bufLen st))) by lia.
  destruct (Z.ltb_spec off (bufOff st)); [lia|].
  destruct (Z.ltb_spec (bufOff st + Z.of_nat (bufLen st)) (off + n)); [lia|]. simpl orb. cbv iota.
  unfold slice.
  destruct (Z.leb_spec 0 (off - bufOff st)); [|lia].
  destruct (Z.leb_spec (off - bufOff st) (off + n - bufOff st)); [|lia].
  destruct (Z.leb_spec (off + n - bufOff st) (Z.of_nat (length (bufArr st)))); [|lia].
  simpl. unfold ret. f_equal.
  replace (off + n - bufOff st - (off - bufOff st)) with n by lia.
  rewrite (take_drop_prefix (bufArr st) data (Z.to_nat (bufOff st)) (bufLen st)
             (Z.to_nat (off - bufOff st)) (Z.to_nat n) Hbc) by lia.
  f_equal. f_equal. f_equal. lia.
Qed.

(** X7: when the source ends before [off + n], [read] fails with the
    unexpected-EOF error after refilling the buffer: the window keeps its old
    start but takes the buffer size as its length, and its first bytes are
    those of the source at [off].  A later [read] at the old window start of
    at most the bytes left after [off] is then served from the cache with
    the source's bytes at [off], not those at the window start. *)
Theorem read_eof_stale_window (data : list ascii) (st : state) (off n : Z) :
  cache_ok data st -> 0 <= off <= Z.of_nat (length data) -> Z.of_nat (length data) < off + n ->
  off + n + 8192 < 2 ^ 62 ->
  exists arr,
    let st' := mkState (bufOff st) arr (Z.to_nat (Z.max n 8192)) (resArr st) in
    read data off n st = (Err EUnexpectedEOF, st') /\
    forall m, 0 <= m <= Z.of_nat (length data) - off ->
      read data (bufOff st) m st' = (Ok (take (Z.to_nat m) (drop (Z.to_nat off) data)), st').
Proof.
  intros (Hbo & Hbl & Hbe & Hbc) Ho Hn Hsmall.
  unfold read at 1, bind, get_st.
  rewrite (s64_small (off + n)) by lia.
  rewrite (s64_small (bufOff st + Z.of_nat (bufLen st))) by lia.
  destruct (Z.ltb_spec (bufOff st + Z.of_nat (bufLen st)) (off + n)); [|lia].
  rewrite orb_true_r. cbv iota.
  destruct (Z.ltb_spec off 0); [lia|].
  assert (Hbs : (if 8192 <? n then n else 8192) = Z.max n 8192)
    by (destruct (Z.ltb_spec 8192 n); lia).
  rewrite Hbs.
  set (r := source_read data off (Z.to_nat (Z.max n 8192))).
  assert (Hr : Z.of_nat (length r) = Z.min (Z.max n 8192) (Z.of_nat (length data) - off)).
  { unfold r, source_read. rewrite length_take, length_drop. lia. }
  destruct (Z.ltb_spec (Z.of_nat (length r)) n); [|lia].
  set (arr2 := r ++ drop (length r) (resize (bufArr st) (Z.to_nat (Z.max n 8192)))).
  exists arr2. split; [reflexivity|].
  intros m Hm.
  assert (Ha2 : (Z.to_nat (Z.max n 8192) <= length arr2)%nat).
  { unfold arr2, resize. rewrite length_app, length_drop.
    destruct (Nat.ltb_spec (length (bufArr st)) (Z.to_nat (Z.max n 8192))).
    - rewrite repeat_length. lia.
    - lia. }
  unfold read, bind, get_st. cbv beta. cbn [bufOff bufLen bufArr resArr].
  rewrite (s64_small (bufOff st + m)) by lia.
  rewrite (s64_small (bufOff st + Z.of_nat (Z.to_nat (Z.max n 8192)))) by lia.
  destruct (Z.ltb_spec (bufOff st) (bufOff st)); [lia|].
  destruct (Z.ltb_spec (bufOff st + Z.of_nat (Z.to_nat (Z.max n 8192))) (bufOff st + m)); [lia|].
  simpl orb. cbv iota. unfold slice. rewrite Z.sub_diag.
  destruct (Z.leb_spec 0 0); [|lia].
  destruct (Z.leb_spec 0 (bufOff st + m - bufOff st)); [|lia].
  destruct (Z.leb_spec (bufOff st + m - bufOff st) (Z.of_nat (length arr2))); [|lia].
  simpl. unfold ret. f_equal. f_equal.
  try replace (Z.to_nat (bufOff st + m - bufOff st - 0)) with (Z.to_nat m) by lia.
  simpl (Z.to_nat 0). rewrite drop_0.
  unfold arr2. rewrite take_app_le by lia.
  unfold r, source_read. rewrite take_take. f_equal. lia.
Qed.

(* ================================================================== *)
(** * Where the span of Get ends *)

(** X8: on an entry that matches its data, the span [Get] reads for
    [start, end) starts at the byte of base [start] and ends right after the
    byte of base [end - 1], except when [end] is a multiple of [lineBase] and
    the range reaches past the first line: then the span also takes the
    [lineWidth - lineBase] line-break bytes that follow that base. *)
Theorem span_end (ent : indexEntry) (data : list ascii) (start end_ : Z) :
  holds_index_bytes ent data -> 0 <= start < end_ -> end_ <= ie_length ent ->
  exists offset capacity,
    span_of ent start end_ = Some (offset, capacity) /\
    offset = phys ent start /\
    offset + capacity = phys ent (end_ - 1) + 1 +
      (if (end_ mod ie_lineBase ent =? 0) && (ie_lineBase ent - start mod ie_lineBase ent <? end_ - start)
       then ie_lineWidth ent - ie_lineBase ent else 0).
Proof.
  intros Hh Hse He. pose proof Hh as (_ & Hb & _).
  unfold span_of. rewrite (translate_ok ent data start end_ init_state Hh Hse He). simpl fst.
  eexists _, _. split; [reflexivity|]. unfold phys.
  set (lb := ie_lineBase ent) in *. set (lw := ie_lineWidth ent) in *. set (off := ie_offset ent).
  split; [lia|].
  pose proof (Z.div_mod start lb ltac:(lia)) as Hds. pose proof (Z.mod_pos_bound start lb ltac:(lia)) as Hms.
  set (q := start / lb) in *. set (p := start mod lb) in *.
  unfold newlines. fold p.
  destruct (Z.ltb_spec (lb - p) (end_ - start)) as [Hlt|Hge].
  - set (t := end_ - start - (lb - p)).
    pose proof (Z.div_mod t lb ltac:(lia)) as Hdt. pose proof (Z.mod_pos_bound t lb ltac:(lia)) as Hmt.
    assert (Ht0 : 0 <= t / lb) by (apply Z.div_pos; lia).
    set (j := t / lb) in *. set (r := t mod lb) in *.
    assert (Hee : end_ = (q + 1 + j) * lb + r) by lia.
    destruct (divmod_lw lb (q + 1 + j) r ltac:(lia)) as [_ Hem].
    rewrite Hee, Hem, andb_true_r.
    destruct (Z.eq_dec r 0) as [->|Hr0].
    + destruct (divmod_lw lb (q + j) (lb - 1) ltac:(lia)) as [Hd Hm].
      replace ((q + 1 + j) * lb + 0 - 1) with ((q + j) * lb + (lb - 1)) by lia.
      rewrite Hd, Hm. simpl. lia.
    + destruct (divmod_lw lb (q + 1 + j) (r - 1) ltac:(lia)) as [Hd Hm].
      replace ((q + 1 + j) * lb + r - 1) with ((q + 1 + j) * lb + (r - 1)) by lia.
      rewrite Hd, Hm. destruct (Z.eqb_spec r 0); [lia|]. lia.
  - destruct (divmod_lw lb q (p + (end_ - start) - 1) ltac:(lia)) as [Hd Hm].
    replace (end_ - 1) with (q * lb + (p + (end_ - start) - 1)) by lia.
    rewrite Hd, Hm, andb_false_r. lia.
Qed.

(* ================================================================== *)
(** * Get does not depend on the cache *)

(** X9: on an entry that matches its data, the result of [Get] does not
    depend on the cache state: from any two consistent states (for instance
    before and after a first identical call) it returns the same string. *)
Theorem Get_cache_independent (f : indexedFasta) (seqName : string) (ent : indexEntry)
    (start end_ : Z) (st1 st2 : state) :
  seqs f !! seqName = Some ent -> holds_index_bytes ent (reader f) ->
  0 <= start < end_ -> end_ <= ie_length ent ->
  cache_ok (reader f) st1 -> cache_ok (reader f) st2 ->
  fst (Get f seqName start end_ st1) = fst (Get f seqName start end_ st2).
Proof.
  intros Hl Hh Hse He Hc1 Hc2.
  destruct (Get_ok f seqName ent start end_ st1 Hl Hh Hse He Hc1) as (s1 & -> & _).
  destruct (Get_ok f seqName ent start end_ st2 Hl Hh Hse He Hc2) as (s2 & -> & _).
  reflexivity.
Qed.

(* ================================================================== *)
(** * Blank index lines *)

(** X3: a blank line in the index (empty, or a lone carriage return) that is
    followed by a newline makes [parseIndex] fail with the format error on
    the empty line, once the lines before it are shorter than
    [maxTokenSize] bytes and parse; the lines after it do not matter. *)
Theorem parseIndex_blank_line (pre : list (list ascii)) (l rest : list ascii) :
  Forall short_line pre -> ~ newline ∈ l -> dropCR l = [] ->
  Forall (fun l' => exists ent, parse_line (dropCR l') = Ok ent) pre ->
  parseIndex (concat (map (fun l' => l' ++ [newline]) pre) ++ l ++ newline :: rest) = Err (EFormat []).
Proof.
  intros Hsh Hnl Hl Hpre. unfold parseIndex. rewrite scan_lines_join_app by exact Hsh.
  assert (Hlen : (length l <= 1)%nat).
  { pose proof (length_rev l) as E. unfold dropCR in Hl.
    destruct (rev l) as [|c r]; [simpl in E; lia|].
    destruct (Ascii.eqb c cr); [|rewrite Hl; simpl; lia].
    apply (f_equal (@length _)) in Hl. rewrite length_rev in Hl. simpl in E, Hl. lia. }
  unfold scan_lines at 1. rewrite scan_lines_aux_line by (exact Hnl || (simpl; unfold maxTokenSize; lia)).
  simpl. rewrite Hl.
  apply parse_lines_stop; [|reflexivity].
  apply Forall_fmap. exact Hpre.
Qed.

Lemma scan_lines_aux_long (cur l rest : list ascii) :
  ~ newline ∈ l -> Z.of_nat (length cur) < maxTokenSize ->
  maxTokenSize <= Z.of_nat (length cur + length l) ->
  scan_lines_aux cur (l ++ rest) = [].
Proof.
  revert cur. induction l as [|c l IH]; intros cur Hl Hcur Hlen; simpl in *; [lia|].
  destruct (Ascii.eqb_spec c newline) as [->|Hc]; [destruct Hl; left|].
  destruct (Z.leb_spec maxTokenSize (Z.of_nat (S (length cur)))); [reflexivity|].
  apply IH; [intros Hin; apply Hl; right; exact Hin|simpl; lia|simpl; lia].
Qed.

(** X12: a line with [maxTokenSize] (64KiB) bytes or more before its newline
    (or the end of input) stops the scanner with [ErrTooLong], which
    [parseIndex] does not check: it returns the entries of the lines before
    it with no error, and whatever follows is never read. *)
Theorem parseIndex_too_long_line (pre : list (list ascii)) (es : list indexEntry)
    (long rest : list ascii) :
  Forall short_line pre ->
  Forall2 (fun l e => parse_line (dropCR l) = Ok e) pre es ->
  ~ newline ∈ long -> maxTokenSize <= Z.of_nat (length long) ->
  parseIndex (concat (map (fun l => l ++ [newline]) pre) ++ long ++ rest) = Ok es.
Proof.
  intros Hsh Hp Hnl Hlen. unfold parseIndex. rewrite scan_lines_join_app by exact Hsh.
  unfold scan_lines at 1. rewrite scan_lines_aux_long by (exact Hnl || (simpl; unfold maxTokenSize; lia) || (simpl; lia)).
  rewrite app_nil_r, (parse_lines_all _ es); [reflexivity|].
  apply Forall2_fmap_l. exact Hp.
Qed.

(* ================================================================== *)
(** * Get, base by base *)

(** X11: on an entry that matches its data, the [i]-th byte [Get] returns for
    [start, end) is the encoded byte at [offset + ((start+i) / lineBase) *
    lineWidth + (start+i) mod lineBase], for each [i < end - start], and
    there are no others. *)
Theorem Get_pointwise (f : indexedFasta) (seqName : string) (ent : indexEntry)
    (start end_ : Z) (st : state) :
  seqs f !! seqName = Some ent -> holds_index_bytes ent (reader f) ->
  0 <= start < end_ -> end_ <= ie_length ent -> cache_ok (reader f) st ->
  exists r st', Get f seqName start end_ st = (Ok r, st') /\
    Z.of_nat (length r) = end_ - start /\
    forall i, 0 <= i < end_ - start ->
      r !! Z.to_nat i = Some (enc f (nth_byte (reader f) (phys ent (start + i)))).
Proof.
  intros Hl Hh Hse He Hc.
  destruct (Get_ok f seqName ent start end_ st Hl Hh Hse He Hc) as (st' & HG & _).
  eexists _, st'. split; [exact HG|]. split.
  - rewrite length_map. apply length_bases. lia.
  - intros i Hi. unfold bases, zseq. rewrite !map_map.
    change (map ?g ?l) with (g <$> l). rewrite list_lookup_fmap.
    rewrite lookup_seq_lt by lia. simpl. do 4 f_equal. lia.
Qed.

(* ================================================================== *)
(** * Instances of the facts above *)

Definition ex_line_a : list ascii := list_ascii_of_string "a	4	0	4	5".
Definition ex_line_b : list ascii := list_ascii_of_string "b	3	9	4	5" ++ [cr].
Definition ex_entry_a : indexEntry := mkEntry "a" 4 0 4 5.
Definition ex_entry_b : indexEntry := mkEntry "b" 3 9 4 5.

(** A cache window over bytes 4-12 of [ex_data]. *)
Definition ex_window : state := mkState 4 (drop 4 ex_data) 9 [].

Lemma ex_window_ok : cache_ok ex_data ex_window.
Proof.
  unfold cache_ok, ex_window. simpl bufOff. simpl bufLen. simpl bufArr.
  refine (conj _ (conj _ (conj _ _))); [lia | vm_compute; lia | vm_compute; discriminate | reflexivity].
Qed.

Lemma parse_line_fields_witness :
  parse_line (list_ascii_of_string "chr1" ++ tab :: list_ascii_of_string "10" ++ tab ::
              list_ascii_of_string "0" ++ tab :: list_ascii_of_string "4" ++ tab ::
              list_ascii_of_string "5") =
  Ok (mkEntry (string_of_list_ascii (list_ascii_of_string "chr1")) 10 0 4 5).
Proof.
  apply parse_line_fields; try discriminate; try reflexivity; repeat constructor.
Defined.

Lemma ex_lines_short : Forall short_line [ex_line_a; ex_line_b].
Proof.
  repeat constructor; (apply (bool_decide_unpack _); vm_compute; exact I) || (vm_compute; reflexivity).
Qed.

Lemma parseIndex_lines_witness :
  parseIndex (concat (map (fun l => l ++ [newline]) [ex_line_a; ex_line_b])) =
  Ok [ex_entry_a; ex_entry_b].
Proof.
  apply parseIndex_lines.
  - exact ex_lines_short.
  - repeat constructor.
Defined.

Lemma parseIndex_blank_line_witness :
  parseIndex (concat (map (fun l => l ++ [newline]) [ex_line_a]) ++ [cr] ++ newline :: ex_line_b) =
  Err (EFormat []).
Proof.
  apply parseIndex_blank_line.
  - constructor; [|constructor]. exact (Forall_inv ex_lines_short).
  - apply (bool_decide_unpack _). vm_compute. exact I.
  - reflexivity.
  - repeat constructor. exists ex_entry_a. reflexivity.
Defined.

Definition ex_long_line : list ascii := repeat "N"%char (Z.to_nat maxTokenSize).

Lemma parseIndex_too_long_line_witness :
  parseIndex (concat (map (fun l => l ++ [newline]) [ex_line_a]) ++ ex_long_line ++ newline :: ex_line_b) =
  Ok [ex_entry_a].
Proof.
  apply parseIndex_too_long_line.
  - constructor; [|constructor]. exact (Forall_inv ex_lines_short).
  - repeat constructor.
  - intros H. apply list_elem_of_In, repeat_spec in H. discriminate.
  - unfold ex_long_line. rewrite repeat_length, Z2Nat.id; unfold maxTokenSize; lia.
Defined.

Lemma FaiToReferenceLengths_lengths_witness :
  (forall m, is_seqNames m (sorted_names m)) /\
  FaiToReferenceLengths sorted_names (concat (map (fun l => l ++ [newline]) [ex_line_a; ex_line_b])) =
  match parseIndex (concat (map (fun l => l ++ [newline]) [ex_line_a; ex_line_b])) with
  | Ok entries => Ok (ie_length <$> build_seqs entries)
  | Err e => Err e
  | Panic => Panic
  end.
Proof.
  split; [exact sorted_names_ok|].
  apply FaiToReferenceLengths_lengths. exact sorted_names_ok.
Defined.

Lemma read_hit_witness :
  read ex_data 6 5 ex_window = (Ok (take (Z.to_nat 5) (drop (Z.to_nat 6) ex_data)), ex_window).
Proof.
  apply read_hit.
  - exact ex_window_ok.
  - simpl; lia.
  - lia.
  - simpl; lia.
  - vm_compute; reflexivity.
Defined.

Lemma read_eof_stale_window_witness :
  exists arr,
    let st' := mkState (bufOff ex_window) arr (Z.to_nat (Z.max 100 8192)) (resArr ex_window) in
    read ex_data 10 100 ex_window = (Err EUnexpectedEOF, st') /\
    forall m, 0 <= m <= Z.of_nat (length ex_data) - 10 ->
      read ex_data (bufOff ex_window) m st' = (Ok (take (Z.to_nat m) (drop (Z.to_nat 10) ex_data)), st').
Proof.
  apply (read_eof_stale_window ex_data ex_window 10 100).
  - exact ex_window_ok.
  - vm_compute. split; discriminate.
  - vm_compute. reflexivity.
  - lia.
Defined.

Lemma span_end_witness :
  exists offset capacity,
    span_of ex_entry 2 8 = Some (offset, capacity) /\
    offset = phys ex_entry 2 /\
    offset + capacity = phys ex_entry (8 - 1) + 1 +
      (if (8 mod ie_lineBase ex_entry =? 0) && (ie_lineBase ex_entry - 2 mod ie_lineBase ex_entry <? 8 - 2)
       then ie_lineWidth ex_entry - ie_lineBase ex_entry else 0).
Proof.
  apply (span_end ex_entry ex_data 2 8).
  - exact ex_holds.
  - lia.
  - simpl; lia.
Defined.

Lemma Get_cache_independent_witness :
  fst (Get ex_engine "seq1" 2 8 init_state) = fst (Get ex_engine "seq1" 2 8 ex_window).
Proof.
  apply (Get_cache_independent ex_engine "seq1" ex_entry).
  - reflexivity.
  - exact ex_holds.
  - lia.
  - simpl; lia.
  - apply init_state_ok.
  - exact ex_window_ok.
Defined.

Lemma Get_keeps_cache_ok_witness :
  cache_ok ex_data (snd (Get ex_engine "seq1" 2 8 ex_window)).
Proof.
  apply (Get_keeps_cache_ok ex_engine "seq1" 2 8 ex_window).
  - intros n e He. unfold ex_engine, newLazyIndexed, build_seqs in He. simpl in He.
    destruct (decide (n = "seq1")) as [->|Hne].
    + rewrite lookup_insert_eq in He. injection He as <-. exact ex_holds.
    + rewrite lookup_insert_ne in He by congruence. rewrite lookup_empty in He. discriminate.
  - lia.
  - exact ex_window_ok.
Defined.

Lemma Get_pointwise_witness :
  exists r st', Get ex_engine "seq1" 2 8 ex_window = (Ok r, st') /\
    Z.of_nat (length r) = 8 - 2 /\
    forall i, 0 <= i < 8 - 2 ->
      r !! Z.to_nat i = Some (enc ex_engine (nth_byte (reader ex_engine) (phys ex_entry (2 + i)))).
Proof.
  apply (Get_pointwise ex_engine "seq1" ex_entry 2 8 ex_window).
  - reflexivity.
  - exact ex_holds.
  - lia.
  - simpl; lia.
  - exact ex_window_ok.
Defined.
